(** * cogent.util.parallel

    A shallow embedding of [cogent/util/parallel.py]: the stack of
    communicators, [getSplitCommunicators], the striping iterator behind
    [localShareOf], and the phased random number generator [ParaRandom].

    Python integers are [Z] where they can be negative ([jobs], [num_proc],
    [rank] of [ParaRandom]) and [nat] where the code gets them from
    [Get_rank], [Get_size] or [len].  Mutable process state (the module-level
    list [_ParallelisationStack], object allocation, the collective calls that
    were made) is threaded explicitly through a state-and-exception monad:
    what one process does when its collective calls return.  Which of them
    return when all processes run the same program is worked out from the
    calls of all of them together. *)

From Stdlib Require Import List ZArith Lia Bool PeanoNat Permutation Sorted.
Import ListNotations.

Set Implicit Arguments.

(** ** Random sources *)

(** What [ParaRandom] needs of the generator it wraps: a [.random()] method,
    which returns a draw and advances the generator, and a [.seed(arg)]
    method.  [ParaRandom] offers the two methods itself, hence the class. *)
Class RandomSource (G R V : Type) : Type := {
  rs_random : G -> R * G;
  rs_seed : V -> G -> G
}.

(** [range n] runs its body [n] times, and not at all when [n <= 0]. *)
Definition range_len (n : Z) : nat := Z.to_nat n.

Module ParaRandom.
Section Phased.
Context {G R V : Type} `{RandomSource G R V}.

(** [for i in range(n): rng.random()], results dropped. *)
Fixpoint discard (n : nat) (g : G) : G :=
  match n with
  | O => g
  | S n' => discard n' (snd (rs_random g))
  end.

(** The [k]-th draw (from 0) of the generator left alone. *)
Definition draw (g : G) (k : nat) : R := fst (rs_random (discard k g)).

Record t : Type := mk {
  _rng : G;
  _num_proc : Z;
  _rank : Z
}.

(** [ParaRandom.__init__(self, random_number, num_proc = 1, rank = 0)] *)
Definition __init__ (random_number : G) (num_proc rank : Z) : t :=
  mk (discard (range_len rank) random_number) num_proc rank.

(** [ParaRandom.random(self)]: the draw and the instance afterwards. *)
Definition random (self : t) : R * t :=
  let (r, g1) := rs_random (_rng self) in
  (r, mk (discard (range_len (_num_proc self)) g1)
         (_num_proc self) (_rank self)).

(** [ParaRandom.seed(self, arg)] *)
Definition seed (arg : V) (self : t) : t :=
  mk (rs_seed arg (_rng self)) (_num_proc self) (_rank self).

(** The instance after [n] calls of [random]. *)
Fixpoint after_calls (n : nat) (self : t) : t :=
  match n with
  | O => self
  | S n' => after_calls n' (snd (random self))
  end.

(** The result of call number [n] (from 0) of [random]. *)
Definition nth_call (n : nat) (self : t) : R :=
  fst (random (after_calls n self)).

End Phased.
Arguments t G : clear implicits.
End ParaRandom.

(** "Can safely be used on itself": a [ParaRandom] is a random source. *)
#[export] Instance ParaRandom_source {G R V : Type} `{RandomSource G R V}
  : RandomSource (ParaRandom.t G) R V :=
  {| rs_random := ParaRandom.random; rs_seed := ParaRandom.seed |}.

(** A generator whose draws can be told apart: draw [k] from state [s] is
    [s + k], and seeding sets the state. *)
#[export] Instance counter_source : RandomSource nat nat nat :=
  {| rs_random := fun s => (s, S s); rs_seed := fun v _ => v |}.

(** ** Process state, exceptions and the monad *)

(** Communicators are objects; [oid] is the object's identity, what Python's
    [is] compares.  A [_FakeCommunicator] has no other content.  A
    communicator of the MPI library is seen from the calling process: the
    processes of its group in rank order, and the rank of the caller. *)
Inductive Communicator : Type :=
| FakeCommunicator (oid : nat)
| MPIComm (oid : nat) (group : list nat) (rank : nat).

Definition oid_of (c : Communicator) : nat :=
  match c with
  | FakeCommunicator o => o
  | MPIComm o _ _ => o
  end.

(** [a is b] *)
Definition is_ (a b : Communicator) : bool := oid_of a =? oid_of b.

Inductive Exception : Type :=
| AssertionError
| IndexError
| StopIteration
| AttributeError.

Inductive Result (A : Type) : Type :=
| Ok (a : A)
| Raise (e : Exception).
Arguments Ok {A} a.
Arguments Raise {A} e.

(** The calls made on communicators and on the stack, oldest first. *)
Inductive Event : Type :=
| EvBarrier (oid : nat)
| EvSplit (oid : nat) (colour key : Z)
| EvPush (oid : nat)
| EvPop (oid : nat).

(** The state of one process.  [ParallelisationStack] is the Python list
    [_ParallelisationStack]: [append] and [pop] work at its end, and
    [[-1]] is its last element. *)
Record World : Type := mkWorld {
  ParallelisationStack : list Communicator;
  next_oid : nat;
  trace : list Event
}.

(** A computation changes the state and returns or raises; the state
    changes made before an exception stay. *)
Definition M (A : Type) : Type := World -> World * Result A.

Definition ret {A : Type} (a : A) : M A := fun w => (w, Ok a).

Definition bind {A B : Type} (m : M A) (k : A -> M B) : M B :=
  fun w =>
    match m w with
    | (w1, Ok a) => k a w1
    | (w1, Raise e) => (w1, Raise e)
    end.

Definition raise {A : Type} (e : Exception) : M A := fun w => (w, Raise e).

Declare Scope py_scope.
Delimit Scope py_scope with py.
Notation "x <- m ;; k" := (bind m (fun x => k))
  (at level 61, m at next level, right associativity) : py_scope.
Notation "m ;;; k" := (bind m (fun _ => k))
  (at level 61, right associativity) : py_scope.
Open Scope py_scope.

(** [assert b] *)
Definition assert_ (b : bool) : M unit :=
  if b then ret tt else raise AssertionError.

Definition log (e : Event) : M unit :=
  fun w => (mkWorld (ParallelisationStack w) (next_oid w) (trace w ++ [e]), Ok tt).

(** [list.pop()]: the list without its last element, and that element. *)
Fixpoint list_pop {A : Type} (l : list A) : option (list A * A) :=
  match l with
  | [] => None
  | x :: l' =>
      match list_pop l' with
      | None => Some ([], x)
      | Some (r, y) => Some (x :: r, y)
      end
  end.

(** ** Methods of communicators *)

Definition Get_rank (self : Communicator) : nat :=
  match self with
  | FakeCommunicator _ => 0
  | MPIComm _ _ r => r
  end.

Definition Get_size (self : Communicator) : nat :=
  match self with
  | FakeCommunicator _ => 1
  | MPIComm _ g _ => length g
  end.

(** [Barrier()]: the call is recorded.  On a [_FakeCommunicator] it does
    nothing else.  On a communicator of the MPI library the process waits
    in the call until every process of the group has made it: a
    computation in [M] is what the process does when its calls return, and
    which of them do return, with the other processes running the same
    program, is what [run] below works out. *)
Definition Barrier (self : Communicator) : M unit := log (EvBarrier (oid_of self)).

(** [_FakeCommunicator()]: a new object. *)
Definition new_FakeCommunicator : M Communicator :=
  fun w => (mkWorld (ParallelisationStack w) (S (next_oid w)) (trace w),
            Ok (FakeCommunicator (next_oid w))).

(** Stable insertion sort by key. *)
Fixpoint insert_by (key : nat -> Z) (x : nat) (l : list nat) : list nat :=
  match l with
  | [] => [x]
  | y :: l' => if (key x <=? key y)%Z then x :: y :: l' else y :: insert_by key x l'
  end.

Fixpoint sort_by (key : nat -> Z) (l : list nat) : list nat :=
  match l with
  | [] => []
  | x :: l' => insert_by key x (sort_by key l')
  end.

Fixpoint index_of (x : nat) (l : list nat) : nat :=
  match l with
  | [] => 0
  | y :: l' => if x =? y then 0 else S (index_of x l')
  end.

(** Modelled from the spec: the [Split] of the MPI library, which is not
    part of this repository.  "split(color, key) producing a new communicator
    containing exactly the ranks that supplied equal color, ordered by key".
    All processes of the group run the same call, each with its own rank, so
    [colour j] and [key j] are what the process of rank [j] supplies.
    [split_ranks] is the new group as ranks of the old one, for the process
    of rank [rank]. *)
Definition split_ranks (size : nat) (colour key : nat -> Z) (rank : nat) : list nat :=
  sort_by key (filter (fun j => (colour j =? colour rank)%Z) (seq 0 size)).

(** [comm.Split(colour, key)] on a communicator of the MPI library.  On a
    [_FakeCommunicator] the method returns the tuple [(self, self)], which
    is not a communicator: the first use of it as one raises, and that is
    where this model puts the exception ([Fake_not_split] below shows
    [getSplitCommunicators] never gets there). *)
Definition Split (self : Communicator) (colour key : nat -> Z) : M Communicator :=
  match self with
  | FakeCommunicator _ => raise AttributeError
  | MPIComm o g r =>
      fun w =>
        let rs := split_ranks (length g) colour key r in
        (mkWorld (ParallelisationStack w) (S (next_oid w))
                 (trace w ++ [EvSplit o (colour r) (key r)]),
         Ok (MPIComm (next_oid w) (map (fun j => nth j g 0) rs) (index_of r rs)))
  end.

(** ** The stack *)

(** [push(context)] *)
Definition push (context : Communicator) : M unit :=
  fun w => (mkWorld (ParallelisationStack w ++ [context]) (next_oid w)
                    (trace w ++ [EvPush (oid_of context)]), Ok tt).

(** [_ParallelisationStack.pop()] *)
Definition stack_pop : M Communicator :=
  fun w =>
    match list_pop (ParallelisationStack w) with
    | None => (w, Raise IndexError)
    | Some (rest, c) =>
        (mkWorld rest (next_oid w) (trace w ++ [EvPop (oid_of c)]), Ok c)
    end.

(** [pop(context=None)] *)
Definition pop (context : option Communicator) : M Communicator :=
  context2 <- stack_pop ;;
  match context with
  | Some c => assert_ (is_ context2 c)
  | None => ret tt
  end ;;;
  ret context2.

(** [getCommunicator()] *)
Definition getCommunicator : M Communicator :=
  fun w =>
    match list_pop (ParallelisationStack w) with
    | None => (w, Raise IndexError)
    | Some (_, c) => (w, Ok c)
    end.

(** [getSplitCommunicators(jobs)] *)
Definition getSplitCommunicators (jobs : Z) : M (Communicator * Communicator) :=
  comm <- getCommunicator ;;
  assert_ (0 <? jobs)%Z ;;;
  let size := Get_size comm in
  let rank := Get_rank comm in
  let group_count := Z.min jobs (Z.of_nat size) in
  if (group_count =? 1)%Z then
    f <- new_FakeCommunicator ;; ret (f, comm)
  else if (group_count =? Z.of_nat size)%Z then
    f <- new_FakeCommunicator ;; ret (comm, f)
  else
    next <- Split comm (fun r => Z.of_nat r / group_count)%Z Z.of_nat ;;
    sub <- Split comm (fun r => Z.of_nat r mod group_count)%Z Z.of_nat ;;
    ret (next, sub).

(** ** The work distributor *)

Module ParallelIter.
Section Items.
Variable Item : Type.

Record t : Type := mk {
  values : list Item;
  leftover : Communicator;
  cpus : Communicator;
  i : nat
}.

(** [_ParallelIter.__init__(self, values, cpus, leftover)] *)
Definition __init__ (values : list Item) (cpus leftover : Communicator) : M t :=
  let self := mk values leftover cpus (Get_rank cpus) in
  push leftover ;;;
  ret self.

(** [_ParallelIter.next(self)]: the item and the iterator afterwards.  When
    it raises, the iterator is as it was. *)
Definition next (self : t) : M (Item * t) :=
  Barrier (leftover self) ;;;
  if length (values self) <=? i self then raise StopIteration
  else
    match nth_error (values self) (i self) with
    | None => raise IndexError
    | Some result =>
        ret (result, mk (values self) (leftover self) (cpus self)
                        (i self + Get_size (cpus self)))
    end.

(** [_ParallelIter.__del__(self)] *)
Definition __del__ (self : t) : M unit :=
  Barrier (cpus self) ;;;
  pop (Some (leftover self)) ;;;
  ret tt.

End Items.
End ParallelIter.

Module localShareOf.
Section Items.
Variable Item : Type.

Record t : Type := mk {
  values : list Item;
  cpus : Communicator;
  leftover : Communicator
}.

(** [localShareOf.__init__(self, values)] *)
Definition __init__ (values : list Item) : M t :=
  p <- getSplitCommunicators (Z.of_nat (length values)) ;;
  ret (mk values (fst p) (snd p)).

(** [localShareOf.__iter__(self)] *)
Definition __iter__ (self : t) : M (ParallelIter.t Item) :=
  ParallelIter.__init__ (values self) (cpus self) (leftover self).

End Items.
End localShareOf.

(** ** The loop over a share

    [for task in localShareOf(tasks): body], the use the docstring of
    [localShareOf] gives.  The [for] statement holds the only reference to
    the iterator, so when the loop is left, by exhaustion, by [break] or
    by an exception, the iterator is released and its [__del__] runs; an
    exception raised inside [__del__] is reported and dropped. *)

Inductive Completion : Type :=
| Completed
| Broke
| Threw (e : Exception).

Section Loop.
Variable Item : Type.
Variable body : Item -> World -> World * Completion.

(** The iterations; every one raises the cursor, so [fuel] above the
    number of items is never used up. *)
Fixpoint iterate (fuel : nat) (it : ParallelIter.t Item) (w : World)
  : option (World * ParallelIter.t Item * Completion) :=
  match fuel with
  | O => None
  | S fuel' =>
      match ParallelIter.next it w with
      | (w1, Raise StopIteration) => Some (w1, it, Completed)
      | (w1, Raise e) => Some (w1, it, Threw e)
      | (w1, Ok (x, it')) =>
          match body x w1 with
          | (w2, Completed) => iterate fuel' it' w2
          | (w2, c) => Some (w2, it', c)
          end
      end
  end.

Definition for_localShareOf (tasks : list Item) (w : World)
  : option (World * Completion) :=
  match (self <- localShareOf.__init__ tasks ;; localShareOf.__iter__ self) w with
  | (w1, Raise e) => Some (w1, Threw e)
  | (w1, Ok it) =>
      match iterate (S (length tasks)) it w1 with
      | None => None
      | Some (w2, it', c) => Some (fst (ParallelIter.__del__ it' w2), c)
      end
  end.

End Loop.

(** [list(it)]: the items the iterator yields until it raises
    [StopIteration], and the state afterwards. *)
Fixpoint drain {Item : Type} (fuel : nat) (it : ParallelIter.t Item) (w : World)
  : option (World * Result (list Item)) :=
  match fuel with
  | O => None
  | S fuel' =>
      match ParallelIter.next it w with
      | (w1, Raise StopIteration) => Some (w1, Ok [])
      | (w1, Raise e) => Some (w1, Raise e)
      | (w1, Ok (x, it')) =>
          match drain fuel' it' w1 with
          | Some (w2, Ok xs) => Some (w2, Ok (x :: xs))
          | r => r
          end
      end
  end.

(** ** What the claims speak of *)

(** The number of indices [g, g+s, g+2s, ...] below [n]. *)
Definition stripe_len (g s n : nat) : nat :=
  if n <=? g then 0 else S ((n - g - 1) / s).

(** The indices [g, g+s, g+2s, ...] below [n], in increasing order. *)
Definition stripe (g s n : nat) : list nat :=
  map (fun k => g + k * s) (seq 0 (stripe_len g s n)).

(** A communicator whose caller is one of its processes. *)
Definition wf_comm (c : Communicator) : Prop := Get_rank c < Get_size c.

(** The groups [getSplitCommunicators] asks for when
    [1 < group_count < size], as ranks of the communicator that is split. *)
Definition outer_group (size : nat) (group_count : Z) (rank : nat) : list nat :=
  split_ranks size (fun r => Z.of_nat r / group_count)%Z Z.of_nat rank.

Definition inner_group (size : nat) (group_count : Z) (rank : nat) : list nat :=
  split_ranks size (fun r => Z.of_nat r mod group_count)%Z Z.of_nat rank.

(** The items of [values] at the indices [idxs], in that order. *)
Definition items_at {Item : Type} (values : list Item) (idxs : list nat) : list Item :=
  flat_map (fun j => match nth_error values j with
                     | Some x => [x]
                     | None => []
                     end) idxs.

(** The events of [Split] calls. *)
Definition is_split (e : Event) : bool :=
  match e with
  | EvSplit _ _ _ => true
  | _ => false
  end.

(** ** More of the module *)

(** What [sync_random] needs of the generator it is given: [getstate()]
    and [setstate(state)]. *)
Class StatefulSource (G St : Type) : Type := {
  rs_getstate : G -> St;
  rs_setstate : St -> G -> G
}.

Section SyncRandom.
Context {G St : Type} `{StatefulSource G St}.

(** The [bcast] of a communicator of the MPI library, which is not part of
    this repository: object identity, group, rank of the caller, the object
    and the source. *)
Variable mpi_bcast : nat -> list nat -> nat -> St -> nat -> M St.

(** [comm.bcast(obj, source)]; [_FakeCommunicator.bcast] returns [obj]. *)
Definition bcast (self : Communicator) (obj : St) (source : nat) : M St :=
  match self with
  | FakeCommunicator _ => ret obj
  | MPIComm o g r => mpi_bcast o g r obj source
  end.

(** [sync_random(r)]: the generator afterwards. *)
Definition sync_random (r : G) : M G :=
  top <- getCommunicator ;;
  if 1 <? Get_size top then
    top' <- getCommunicator ;;
    state <- bcast top' (rs_getstate r) 0 ;;
    ret (rs_setstate state r)
  else ret r.

End SyncRandom.

(** [list(localShareOf(tasks))]: the share is built and iterated to
    exhaustion, and the iterator is released, so its [__del__] runs. *)
Definition list_localShareOf {Item : Type} (tasks : list Item) (w : World)
  : option (World * Result (list Item)) :=
  match (self <- localShareOf.__init__ tasks ;; localShareOf.__iter__ self) w with
  | (w1, Raise e) => Some (w1, Raise e)
  | (w1, Ok it) =>
      match drain (S (length tasks)) it w1 with
      | None => None
      | Some (w2, r) => Some (fst (ParallelIter.__del__ it w2), r)
      end
  end.

(** A loop body that starts with
    [assert getCommunicator() is expected]. *)
Definition with_ambient_check {Item : Type} (expected : Communicator)
  (body : Item -> World -> World * Completion) (x : Item) (w : World)
  : World * Completion :=
  match (c <- getCommunicator ;; assert_ (is_ c expected)) w with
  | (w1, Ok _) => body x w1
  | (w1, Raise e) => (w1, Threw e)
  end.

(** A generator whose state is a number that can be read and set. *)
#[export] Instance counter_state : StatefulSource nat nat :=
  {| rs_getstate := fun s => s; rs_setstate := fun st _ => st |}.

(** The numbers of processes and of tasks with which the processes of one
    group all make the same calls of [Barrier()] on it in
    [list(localShareOf(tasks))]: at least as many tasks as processes (then
    [leftover] is one process), or a number of tasks that divides that of
    the processes (then every process is given one task). *)
Definition matched (size n : nat) : Prop := size <= n \/ size mod n = 0.

(** ** The processes together

    Modelled from the spec: the waiting of the collective calls of the MPI
    library, which is not part of this repository.  "barrier() blocking
    until all members arrive"; "split() is collective and blocks until
    every member has supplied its color/key".  A collective call is made
    on a communicator; it returns, in all processes of the group at once,
    when every process of the group is at that call, and until then the
    processes that made it wait.  The processes run the same program, so a
    communicator has the same object identity in each of them. *)

Inductive Collective : Type :=
| CBarrier
| CSplit.

Record Call : Type := mkCall {
  call_kind : Collective;
  call_oid : nat;
  call_group : list nat
}.

(** The processes of a communicator, for the process [me] that holds it:
    a [_FakeCommunicator] is the process by itself. *)
Definition group_of (me : nat) (c : Communicator) : list nat :=
  match c with
  | FakeCommunicator _ => [me]
  | MPIComm _ g _ => g
  end.

(** The collective call an event records, [known] being the
    communicators the process holds. *)
Definition call_of (me : nat) (known : list Communicator) (e : Event) : list Call :=
  let on := fun (k : Collective) (o : nat) =>
    match find (fun c => oid_of c =? o) known with
    | Some c => [mkCall k o (group_of me c)]
    | None => []
    end in
  match e with
  | EvBarrier o => on CBarrier o
  | EvSplit o _ _ => on CSplit o
  | _ => []
  end.

(** What process [me] of [size] does for [list(localShareOf(tasks))],
    started with the communicator of all processes on its stack, when its
    calls return: its collective calls in order, the items it is given,
    and the communicator [next()] calls [Barrier()] on. *)
Record Script (Item : Type) : Type := mkScript {
  script_calls : list Call;
  script_items : list Item;
  script_leftover : nat
}.

Definition script_of {Item : Type} (size : nat) (tasks : list Item) (me : nat)
  : Script Item :=
  let comm := MPIComm 0 (seq 0 size) me in
  let w := mkWorld [comm] 1 [] in
  match getSplitCommunicators (Z.of_nat (length tasks)) w, list_localShareOf tasks w with
  | (_, Ok (cpus, leftover)), Some (w', Ok ys) =>
      mkScript (flat_map (call_of me [comm; cpus; leftover]) (trace w')) ys
               (oid_of leftover)
  | _, _ => mkScript [] [] 0
  end.

Definition collective_eqb (a b : Collective) : bool :=
  match a, b with
  | CBarrier, CBarrier => true
  | CSplit, CSplit => true
  | _, _ => false
  end.

Definition call_eqb (a b : Call) : bool :=
  collective_eqb (call_kind a) (call_kind b)
  && (call_oid a =? call_oid b)
  && (length (call_group a) =? length (call_group b))
  && forallb (fun p => fst p =? snd p) (combine (call_group a) (call_group b)).

(** The state of the processes together: for every process, in the order
    of their numbers, the calls it has still to make, the first being the
    one it is in.  [at_call ps c q]: process [q] is in call [c]. *)
Definition at_call (ps : list (list Call)) (c : Call) (q : nat) : bool :=
  match nth q ps [] with
  | c' :: _ => call_eqb c c'
  | [] => false
  end.

(** Every process of the group of [c] is in call [c]. *)
Definition all_arrived (ps : list (list Call)) (c : Call) : bool :=
  forallb (at_call ps c) (call_group c).

(** The call [c] returns in every process of its group. *)
Definition release (ps : list (list Call)) (c : Call) : list (list Call) :=
  map (fun qs => if existsb (Nat.eqb (fst qs)) (call_group c)
                 then tl (snd qs) else snd qs)
      (combine (seq 0 (length ps)) ps).

(** One call returns, if one can. *)
Definition step (ps : list (list Call)) : option (list (list Call)) :=
  match find (fun s => match s with
                       | c :: _ => all_arrived ps c
                       | [] => false
                       end) ps with
  | Some (c :: _) => Some (release ps c)
  | _ => None
  end.

(** Calls return as long as one can: every step takes a call off some
    process, so [fuel] above the number of calls is never used up. *)
Fixpoint run (fuel : nat) (ps : list (list Call)) : list (list Call) :=
  match fuel with
  | O => ps
  | S fuel' =>
      match step ps with
      | Some ps' => run fuel' ps'
      | None => ps
      end
  end.

(** [size] processes run [list(localShareOf(tasks))]: the calls every
    process is left with when no call can return any more. *)
Definition outcome {Item : Type} (size : nat) (tasks : list Item) : list (list Call) :=
  let ps := map (fun me => script_calls (script_of size tasks me)) (seq 0 size) in
  run (S (length (concat ps))) ps.

(** The call process [me] waits in for ever, if any. *)
Definition blocked_in {Item : Type} (size : nat) (tasks : list Item) (me : nat)
  : option Call :=
  hd_error (nth me (outcome size tasks) []).

(** The items process [me] is given before it is through or blocked: one
    for every call of [Barrier()] in [next()] that has returned, as long
    as there are items. *)
Definition given {Item : Type} (size : nat) (tasks : list Item) (me : nat)
  : list Item :=
  let sc := script_of size tasks me in
  let left := nth me (outcome size tasks) [] in
  let returned := firstn (length (script_calls sc) - length left) (script_calls sc) in
  let in_next := fun c => collective_eqb (call_kind c) CBarrier
                          && (call_oid c =? script_leftover sc) in
  firstn (length (filter in_next returned)) (script_items sc).

(** [matched], decided. *)
Definition matchedb (size n : nat) : bool := (size <=? n) || (size mod n =? 0).

(** Every process is through: none is left with a call. *)
Definition all_through {Item : Type} (size : nat) (tasks : list Item) : bool :=
  forallb (fun s => match s with [] => true | _ :: _ => false end)
          (outcome size tasks).

(** * Properties *)

(** ** The phased random generator *)

Section PhasedFacts.
Context {G R V : Type} `{RandomSource G R V}.

Lemma discard_add (a b : nat) (g : G) :
  ParaRandom.discard (a + b) g = ParaRandom.discard b (ParaRandom.discard a g).
Proof.
  revert g; induction a as [|a IH]; intro g; simpl; [reflexivity | apply IH].
Qed.

Lemma discard_succ_r (a : nat) (g : G) :
  ParaRandom.discard (S a) g = snd (rs_random (ParaRandom.discard a g)).
Proof.
  replace (S a) with (a + 1) by lia. now rewrite discard_add.
Qed.

Lemma random_rng (self : ParaRandom.t G) :
  ParaRandom._rng (snd (ParaRandom.random self))
  = ParaRandom.discard (S (range_len (ParaRandom._num_proc self))) (ParaRandom._rng self).
Proof.
  unfold ParaRandom.random. simpl.
  destruct (rs_random (ParaRandom._rng self)) as [r g1]. reflexivity.
Qed.

Lemma random_fst (self : ParaRandom.t G) :
  fst (ParaRandom.random self) = ParaRandom.draw (ParaRandom._rng self) 0.
Proof.
  unfold ParaRandom.random, ParaRandom.draw. simpl.
  destruct (rs_random (ParaRandom._rng self)); reflexivity.
Qed.

Lemma random_num_proc (self : ParaRandom.t G) :
  ParaRandom._num_proc (snd (ParaRandom.random self)) = ParaRandom._num_proc self.
Proof.
  unfold ParaRandom.random. destruct (rs_random (ParaRandom._rng self)); reflexivity.
Qed.

(** Every call of [random] uses up [num_proc + 1] draws of the wrapped
    generator: the one it returns and [num_proc] more. *)
Lemma after_calls_rng (n : nat) (self : ParaRandom.t G) :
  ParaRandom._rng (ParaRandom.after_calls n self)
  = ParaRandom.discard (n * S (range_len (ParaRandom._num_proc self)))
                       (ParaRandom._rng self).
Proof.
  revert self; induction n as [|n IH]; intro self; [reflexivity|].
  cbn [ParaRandom.after_calls]. rewrite IH, random_rng, random_num_proc.
  rewrite <- discard_add. f_equal.
Qed.

(** Call [n] on the instance of rank [r] returns draw
    [r + n * (num_proc + 1)] of the wrapped generator. *)
Lemma nth_call_index (g : G) (num_proc rank : Z) (n : nat) :
  ParaRandom.nth_call n (ParaRandom.__init__ g num_proc rank)
  = ParaRandom.draw g (range_len rank + n * S (range_len num_proc)).
Proof.
  unfold ParaRandom.nth_call. rewrite random_fst, after_calls_rng.
  unfold ParaRandom.draw. simpl. now rewrite <- !discard_add.
Qed.

End PhasedFacts.

(** C1. The claim has call [n] on rank [r] return draw [r + n*P] and the
    wrapper with [P = 1] pass the wrapped generator through.  The code
    discards [P] draws after the one it returns, not [P - 1]: with
    [P = 1] and rank 0 the second call returns draw 2, not draw 1, and with
    [P = 2] the second call on rank 0 returns draw 3, not draw 2. *)
Theorem random_discards_one_draw_too_many :
  ParaRandom.nth_call 1 (ParaRandom.__init__ (0 : nat) 1 0) = ParaRandom.draw (0 : nat) 2
  /\ ParaRandom.nth_call 1 (ParaRandom.__init__ (0 : nat) 1 0)
     <> ParaRandom.draw (0 : nat) (0 + 1 * 1)
  /\ ParaRandom.nth_call 1 (ParaRandom.__init__ (0 : nat) 2 0)
     <> ParaRandom.draw (0 : nat) (0 + 1 * 2).
Proof.
  split; [reflexivity|]. split; vm_compute; discriminate.
Qed.

(** C8. Constructing the wrapper with rank [r], [0 <= r < P], leaves the
    wrapped generator where [r] draws have been taken from it, and the first
    [random()] of the new instance is draw [r] of the wrapped generator. *)
Theorem init_discards_rank_draws {G R V : Type} `{RandomSource G R V}
  (g : G) (P r : Z) :
  (1 <= P)%Z -> (0 <= r < P)%Z ->
  ParaRandom._rng (ParaRandom.__init__ g P r) = ParaRandom.discard (Z.to_nat r) g
  /\ fst (ParaRandom.random (ParaRandom.__init__ g P r)) = ParaRandom.draw g (Z.to_nat r).
Proof.
  intros _ _. split; [reflexivity|].
  rewrite random_fst. unfold ParaRandom.draw. simpl. reflexivity.
Qed.

Lemma init_discards_rank_draws_witness :
  ParaRandom._rng (ParaRandom.__init__ (10 : nat) 3 2) = 12
  /\ fst (ParaRandom.random (ParaRandom.__init__ (10 : nat) 3 2)) = 12.
Proof.
  exact (init_discards_rank_draws (10 : nat) (P := 3) (r := 2)
           ltac:(lia) ltac:(lia)).
Defined.

(** C9. [seed(v)] reseeds the wrapped generator and changes nothing else;
    the rank offset is not applied again: on an instance of any rank the
    next [random()] is draw 0 of the reseeded generator, the same on every
    rank when the generator's [seed] sets its state from the value alone. *)
Theorem seed_does_not_reapply_rank {G R V : Type} `{RandomSource G R V}
  (g g' : G) (P P' r r' : Z) (v : V) :
  (forall g1 g2 : G, rs_seed v g1 = rs_seed v g2) ->
  let self := ParaRandom.seed v (ParaRandom.__init__ g P r) in
  let other := ParaRandom.seed v (ParaRandom.__init__ g' P' r') in
  ParaRandom._rng self = rs_seed v (ParaRandom.discard (range_len r) g)
  /\ ParaRandom._num_proc self = P
  /\ ParaRandom._rank self = r
  /\ fst (ParaRandom.random self) = ParaRandom.draw (rs_seed v g) 0
  /\ fst (ParaRandom.random self) = fst (ParaRandom.random other).
Proof.
  intros Hseed self other.
  repeat split.
  - unfold self. rewrite random_fst. simpl. now rewrite (Hseed _ g).
  - unfold self, other. rewrite !random_fst. simpl. now rewrite (Hseed _ (ParaRandom.discard (range_len r') g')).
Qed.

Lemma seed_does_not_reapply_rank_witness :
  fst (ParaRandom.random (ParaRandom.seed 42 (ParaRandom.__init__ (0 : nat) 4 3))) = 42
  /\ fst (ParaRandom.random (ParaRandom.seed 42 (ParaRandom.__init__ (0 : nat) 4 3)))
     = fst (ParaRandom.random (ParaRandom.seed 42 (ParaRandom.__init__ (7 : nat) 4 1))).
Proof.
  pose proof (seed_does_not_reapply_rank (0 : nat) (7 : nat) 4 4 3 1 (42 : nat)
                (fun _ _ => eq_refl)) as W.
  cbv zeta in W. destruct W as (_ & _ & _ & W1 & W2).
  split; [exact W1 | exact W2].
Defined.

(** ** The stack *)

Lemma list_pop_app {A : Type} (l : list A) (x : A) :
  list_pop (l ++ [x]) = Some (l, x).
Proof.
  induction l as [|y l IH]; simpl; [reflexivity | now rewrite IH].
Qed.

Lemma list_pop_Some {A : Type} (l r : list A) (x : A) :
  list_pop l = Some (r, x) -> l = r ++ [x].
Proof.
  revert r; induction l as [|y l IH]; intros r; simpl; [discriminate|].
  destruct (list_pop l) as [[r' z]|] eqn:E.
  - intros [= <- <-]. simpl. f_equal. now apply IH.
  - intros [= <- <-]. destruct l as [|z l]; [reflexivity|].
    simpl in E. destruct (list_pop l) as [[? ?]|]; discriminate.
Qed.

Lemma stack_nonempty_last {A : Type} (l : list A) :
  l <> [] -> exists r x, l = r ++ [x].
Proof.
  intro Hl. destruct (list_pop l) as [[r x]|] eqn:E.
  - exists r, x. now apply list_pop_Some.
  - destruct l as [|y l]; [contradiction|].
    simpl in E. destruct (list_pop l) as [[? ?]|]; discriminate.
Qed.

Lemma getCommunicator_top (rest : list Communicator) (comm : Communicator)
  (n : nat) (tr : list Event) :
  getCommunicator (mkWorld (rest ++ [comm]) n tr)
  = (mkWorld (rest ++ [comm]) n tr, Ok comm).
Proof.
  unfold getCommunicator. simpl. now rewrite list_pop_app.
Qed.

Lemma stack_pop_top (rest : list Communicator) (top : Communicator)
  (n : nat) (tr : list Event) :
  stack_pop (mkWorld (rest ++ [top]) n tr)
  = (mkWorld rest n (tr ++ [EvPop (oid_of top)]), Ok top).
Proof.
  unfold stack_pop. simpl. now rewrite list_pop_app.
Qed.

Lemma pop_top (rest : list Communicator) (top : Communicator)
  (n : nat) (tr : list Event) (expected : option Communicator) :
  pop expected (mkWorld (rest ++ [top]) n tr)
  = (mkWorld rest n (tr ++ [EvPop (oid_of top)]),
     match expected with
     | Some c => if is_ top c then Ok top else Raise AssertionError
     | None => Ok top
     end).
Proof.
  unfold pop, bind. rewrite stack_pop_top.
  destruct expected as [c|]; simpl; [|reflexivity].
  destruct (is_ top c); reflexivity.
Qed.

Lemma is_refl (c : Communicator) : is_ c c = true.
Proof. unfold is_. apply Nat.eqb_refl. Qed.

(** C5 as the claim has it fails: popping the only communicator of the stack
    does not fail, it returns the communicator and leaves the stack empty. *)
Lemma pop_of_last_communicator_succeeds :
  pop None (mkWorld [FakeCommunicator 0] 1 [])
  = (mkWorld [] 1 [EvPop 0], Ok (FakeCommunicator 0))
  /\ ~ (exists w' e, pop None (mkWorld [FakeCommunicator 0] 1 []) = (w', Raise e)).
Proof.
  split; [reflexivity|]. intros (w' & e & E). vm_compute in E. discriminate.
Qed.

(** C5, amended.  On a stack whose last element is [top], [pop(expected)]
    removes [top], also when it then fails; it returns [top], or raises
    [AssertionError], and it raises exactly when [expected] is given and is
    not the object [top].  On the empty stack it raises [IndexError].
    Popping the only communicator succeeds and leaves the stack empty. *)
Theorem pop_contract (rest : list Communicator) (top : Communicator)
  (n : nat) (tr : list Event) (expected : option Communicator) :
  let w := mkWorld (rest ++ [top]) n tr in
  let w' := mkWorld rest n (tr ++ [EvPop (oid_of top)]) in
  (pop expected w = (w', Ok top) \/ pop expected w = (w', Raise AssertionError))
  /\ (pop expected w = (w', Raise AssertionError)
      <-> exists c, expected = Some c /\ is_ top c = false)
  /\ pop expected (mkWorld [] n tr) = (mkWorld [] n tr, Raise IndexError)
  /\ pop None (mkWorld [top] n tr) = (mkWorld [] n (tr ++ [EvPop (oid_of top)]), Ok top)
  /\ pop (Some top) (mkWorld [top] n tr)
     = (mkWorld [] n (tr ++ [EvPop (oid_of top)]), Ok top).
Proof.
  intros w w'. unfold w, w'. rewrite pop_top.
  split; [|split; [|split; [|split]]].
  - destruct expected as [c|]; [destruct (is_ top c)|]; auto.
  - split.
    + destruct expected as [c|]; [|discriminate].
      destruct (is_ top c) eqn:E; [discriminate|]. intros _. now exists c.
    + intros (c & -> & ->). reflexivity.
  - reflexivity.
  - apply (pop_top [] top n tr None).
  - change [top] with ([] ++ [top]). rewrite pop_top, is_refl. reflexivity.
Qed.

(** ** The group splitter *)

Lemma Fake_not_split (oid : nat) (jobs : Z) :
  (0 < jobs)%Z -> Z.min jobs (Z.of_nat (Get_size (FakeCommunicator oid))) = 1%Z.
Proof. simpl. lia. Qed.

Lemma getSplitCommunicators_top (rest : list Communicator) (comm : Communicator)
  (n : nat) (tr : list Event) (jobs : Z) :
  let w := mkWorld (rest ++ [comm]) n tr in
  let group_count := Z.min jobs (Z.of_nat (Get_size comm)) in
  getSplitCommunicators jobs w =
    if (0 <? jobs)%Z then
      if (group_count =? 1)%Z then
        (mkWorld (rest ++ [comm]) (S n) tr, Ok (FakeCommunicator n, comm))
      else if (group_count =? Z.of_nat (Get_size comm))%Z then
        (mkWorld (rest ++ [comm]) (S n) tr, Ok (comm, FakeCommunicator n))
      else
        (next <- Split comm (fun r => Z.of_nat r / group_count)%Z Z.of_nat ;;
         sub <- Split comm (fun r => Z.of_nat r mod group_count)%Z Z.of_nat ;;
         ret (next, sub)) w
    else (w, Raise AssertionError).
Proof.
  intros w group_count. unfold getSplitCommunicators, bind at 1, w.
  rewrite getCommunicator_top. fold w.
  destruct (0 <? jobs)%Z; simpl; [|reflexivity].
  fold group_count.
  destruct (group_count =? 1)%Z; [reflexivity|].
  destruct (group_count =? Z.of_nat (Get_size comm))%Z; reflexivity.
Qed.

(** C6 as the claim has it fails on a communicator of one process: there
    [group_count = 1 = S], and the pair is (a new degenerate communicator,
    the communicator), which is not (the communicator, a degenerate one). *)
Lemma getSplitCommunicators_size_one_takes_first_case :
  let comm := MPIComm 7 [3] 0 in
  let w := mkWorld [comm] 8 [] in
  Z.min 1 (Z.of_nat (Get_size comm)) = Z.of_nat (Get_size comm)
  /\ getSplitCommunicators 1 w = (mkWorld [comm] 9 [], Ok (FakeCommunicator 8, comm))
  /\ ~ (exists w' f, getSplitCommunicators 1 w = (w', Ok (comm, FakeCommunicator f))).
Proof.
  cbv zeta. split; [reflexivity|]. split; [reflexivity|].
  intros (w' & f & E). vm_compute in E. discriminate.
Qed.

(** C6, amended.  With [comm] on top of the stack, of size [S]:
    [getSplitCommunicators(J)] raises [AssertionError] exactly when
    [J <= 0]; otherwise with [group_count = min(J, S)], when
    [group_count = 1] it returns (a new [_FakeCommunicator], [comm]), and
    when [group_count <> 1] and [group_count = S] it returns
    ([comm], a new [_FakeCommunicator]).  Nothing is pushed or popped. *)
Theorem getSplitCommunicators_boundary (rest : list Communicator)
  (comm : Communicator) (n : nat) (tr : list Event) (J : Z) :
  let w := mkWorld (rest ++ [comm]) n tr in
  let w1 := mkWorld (rest ++ [comm]) (S n) tr in
  let sz := Z.of_nat (Get_size comm) in
  ((exists w', getSplitCommunicators J w = (w', Raise AssertionError)) <-> (J <= 0)%Z)
  /\ ((J <= 0)%Z -> getSplitCommunicators J w = (w, Raise AssertionError))
  /\ ((0 < J)%Z -> Z.min J sz = 1%Z ->
      getSplitCommunicators J w = (w1, Ok (FakeCommunicator n, comm)))
  /\ ((0 < J)%Z -> Z.min J sz <> 1%Z -> Z.min J sz = sz ->
      getSplitCommunicators J w = (w1, Ok (comm, FakeCommunicator n))).
Proof.
  intros w w1 sz. unfold w. rewrite getSplitCommunicators_top. fold w sz.
  destruct (Z.ltb_spec 0 J) as [HJ|HJ].
  - split; [|split; [|split]].
    + split; [|lia]. intros [w' E]. exfalso.
      destruct (Z.min J sz =? 1)%Z; [discriminate|].
      destruct (Z.min J sz =? sz)%Z; [discriminate|].
      destruct comm as [o|o g r]; [discriminate|].
      unfold bind, Split, ret in E. simpl in E. discriminate.
    + lia.
    + intros _ E. now rewrite E.
    + intros _ N E. destruct (Z.eqb_spec (Z.min J sz) 1); [contradiction|].
      now rewrite E, Z.eqb_refl.
  - split; [|split; [|split]]; try lia; try reflexivity.
    split; [lia|]. intros _. now exists w.
Qed.

Lemma getSplitCommunicators_boundary_witness :
  let comm := MPIComm 0 [0; 1; 2] 1 in
  getSplitCommunicators 3 (mkWorld [comm] 1 [])
  = (mkWorld [comm] 2 [], Ok (comm, FakeCommunicator 1)).
Proof.
  cbv zeta.
  pose proof (getSplitCommunicators_boundary [] (MPIComm 0 [0; 1; 2] 1) 1 [] 3) as W.
  cbv zeta in W. destruct W as (_ & _ & _ & W).
  apply W; simpl; lia.
Defined.

(** ** The iterator *)

Lemma next_unfold {Item : Type} (self : ParallelIter.t Item) (w : World) :
  ParallelIter.next self w
  = (mkWorld (ParallelisationStack w) (next_oid w)
             (trace w ++ [EvBarrier (oid_of (ParallelIter.leftover self))]),
     if length (ParallelIter.values self) <=? ParallelIter.i self
     then Raise StopIteration
     else match nth_error (ParallelIter.values self) (ParallelIter.i self) with
          | None => Raise IndexError
          | Some result =>
              Ok (result,
                  ParallelIter.mk (ParallelIter.values self)
                    (ParallelIter.leftover self) (ParallelIter.cpus self)
                    (ParallelIter.i self + Get_size (ParallelIter.cpus self)))
          end).
Proof.
  unfold ParallelIter.next, bind, Barrier, log. simpl.
  destruct (length (ParallelIter.values self) <=? ParallelIter.i self); [reflexivity|].
  destruct (nth_error (ParallelIter.values self) (ParallelIter.i self)); reflexivity.
Qed.


(** ** The loop *)

Lemma insert_by_perm (key : nat -> Z) (x : nat) (l : list nat) :
  Permutation (insert_by key x l) (x :: l).
Proof.
  induction l as [|y l IH]; simpl; [reflexivity|].
  destruct (key x <=? key y)%Z; [reflexivity|].
  rewrite IH. apply perm_swap.
Qed.

Lemma sort_by_perm (key : nat -> Z) (l : list nat) :
  Permutation (sort_by key l) l.
Proof.
  induction l as [|x l IH]; simpl; [reflexivity|].
  rewrite insert_by_perm. now constructor.
Qed.

Lemma index_of_lt (x : nat) (l : list nat) : In x l -> index_of x l < length l.
Proof.
  induction l as [|y l IH]; simpl; [contradiction|].
  intros [->|Hin].
  - rewrite Nat.eqb_refl. lia.
  - destruct (x =? y); [lia|]. apply IH in Hin. lia.
Qed.

Lemma split_ranks_self (size : nat) (colour key : nat -> Z) (rank : nat) :
  rank < size -> In rank (split_ranks size colour key rank).
Proof.
  intro Hr. unfold split_ranks.
  apply (Permutation_in _ (Permutation_sym (sort_by_perm key _))).
  apply filter_In. split; [apply in_seq; lia | apply Z.eqb_refl].
Qed.

Lemma Split_wf (o : nat) (g : list nat) (r : nat) (colour key : nat -> Z) (w : World) :
  r < length g ->
  exists c,
    Split (MPIComm o g r) colour key w
    = (mkWorld (ParallelisationStack w) (S (next_oid w))
         (trace w ++ [EvSplit o (colour r) (key r)]), Ok c)
    /\ wf_comm c.
Proof.
  intro Hr. eexists; split; [reflexivity|].
  unfold wf_comm. simpl. rewrite length_map.
  apply index_of_lt, split_ranks_self, Hr.
Qed.

(** With a communicator on top of the stack that the caller belongs to, and
    at least one job, [getSplitCommunicators] returns a pair whose first
    communicator the caller belongs to; the stack is as before and only
    [Split] calls are recorded. *)
Lemma getSplitCommunicators_ok (rest : list Communicator) (comm : Communicator)
  (n : nat) (tr : list Event) (jobs : Z) :
  wf_comm comm -> (0 < jobs)%Z ->
  exists n' pre cpus leftover,
    getSplitCommunicators jobs (mkWorld (rest ++ [comm]) n tr)
    = (mkWorld (rest ++ [comm]) n' (tr ++ pre), Ok (cpus, leftover))
    /\ forallb is_split pre = true
    /\ wf_comm cpus.
Proof.
  intros Hwf Hj. pose proof (getSplitCommunicators_top rest comm n tr jobs) as E.
  cbv zeta in E. rewrite E. clear E.
  destruct (Z.ltb_spec 0 jobs) as [_|]; [|lia].
  destruct (Z.eqb_spec (Z.min jobs (Z.of_nat (Get_size comm))) 1) as [E1|E1].
  { exists (S n), [], (FakeCommunicator n), comm. rewrite app_nil_r.
    repeat split. unfold wf_comm. simpl. lia. }
  destruct (Z.eqb_spec (Z.min jobs (Z.of_nat (Get_size comm))) (Z.of_nat (Get_size comm))) as [E2|E2].
  { exists (S n), [], comm, (FakeCommunicator n). rewrite app_nil_r.
    repeat split. exact Hwf. }
  destruct comm as [o|o g r].
  { exfalso. apply E1. simpl. lia. }
  unfold wf_comm in Hwf. simpl in Hwf.
  unfold bind at 1.
  match goal with
  | |- context [Split (MPIComm o g r) ?col ?k ?w0] =>
      destruct (@Split_wf o g r col k w0 Hwf) as (c1 & E & Hc1); rewrite E; clear E
  end.
  unfold bind at 1.
  match goal with
  | |- context [Split (MPIComm o g r) ?col ?k ?w0] =>
      destruct (@Split_wf o g r col k w0 Hwf) as (c2 & E & Hc2); rewrite E; clear E
  end.
  unfold ret. simpl. rewrite <- app_assoc. simpl.
  do 4 eexists. split; [reflexivity|]. split; [reflexivity | exact Hc1].
Qed.

Section LoopFacts.
Variable Item : Type.
Variable body : Item -> World -> World * Completion.
Hypothesis body_keeps_stack :
  forall x w, ParallelisationStack (fst (body x w)) = ParallelisationStack w.


End LoopFacts.

(** C4 as the claim has it fails: over an empty list the construction
    raises, nothing is pushed, no barrier is called and nothing is popped. *)
Lemma empty_share_raises :
  let w := mkWorld [FakeCommunicator 0] 1 [] in
  localShareOf.__init__ (@nil nat) w = (w, Raise AssertionError)
  /\ for_localShareOf (fun _ w0 => (w0, Completed)) (@nil nat) w
     = Some (w, Threw AssertionError)
  /\ ~ (exists w', for_localShareOf (fun _ w0 => (w0, Completed)) (@nil nat) w
                   = Some (w', Completed)).
Proof.
  cbv zeta. split; [reflexivity|]. split; [reflexivity|].
  intros (w' & E). vm_compute in E. discriminate.
Qed.

(** C4, amended.  Over an empty list, with a communicator on the stack,
    [localShareOf([])] raises [AssertionError] in [getSplitCommunicators],
    whose [jobs] is 0: the loop runs no iteration and ends with that
    exception, and the process state (the stack, the recorded calls) is
    what it was: no push, no barrier, no pop. *)
Theorem empty_share_fails_before_push {Item : Type}
  (body : Item -> World -> World * Completion)
  (rest : list Communicator) (comm : Communicator) (n : nat) (tr : list Event) :
  let w := mkWorld (rest ++ [comm]) n tr in
  getSplitCommunicators (Z.of_nat (length (@nil Item))) w = (w, Raise AssertionError)
  /\ localShareOf.__init__ (@nil Item) w = (w, Raise AssertionError)
  /\ for_localShareOf body [] w = Some (w, Threw AssertionError).
Proof.
  intro w.
  assert (E : getSplitCommunicators (Z.of_nat (length (@nil Item))) w
              = (w, Raise AssertionError)).
  { unfold w. rewrite getSplitCommunicators_top. reflexivity. }
  split; [exact E|].
  unfold for_localShareOf, localShareOf.__init__, bind.
  simpl length in *. rewrite E. split; reflexivity.
Qed.

(** ** Striping *)

Lemma stripe_len_spec (g s n k : nat) :
  0 < s -> (k < stripe_len g s n <-> g + k * s < n).
Proof.
  intro Hs. unfold stripe_len.
  destruct (Nat.leb_spec n g) as [Hle|Hlt]; [nia|].
  pose proof (Nat.div_mod_eq (n - g - 1) s) as Hdm.
  pose proof (Nat.mod_upper_bound (n - g - 1) s ltac:(lia)) as Hm.
  set (q := (n - g - 1) / s) in *. set (m := (n - g - 1) mod s) in *.
  split; intro Hk; nia.
Qed.

Lemma in_stripe_iff (g s n j : nat) :
  0 < s -> (In j (stripe g s n) <-> exists k, j = g + k * s /\ j < n).
Proof.
  intro Hs. unfold stripe. rewrite in_map_iff. split.
  - intros (k & <- & Hk). exists k. split; [reflexivity|].
    apply in_seq in Hk. apply stripe_len_spec; lia.
  - intros (k & -> & Hk). exists k. split; [reflexivity|].
    apply in_seq. split; [lia|]. simpl. apply stripe_len_spec; lia.
Qed.

Lemma in_stripe_mod (g s n j : nat) :
  g < s -> (In j (stripe g s n) <-> j < n /\ j mod s = g).
Proof.
  intro Hg. rewrite in_stripe_iff by lia. split.
  - intros (k & -> & Hk). split; [exact Hk|].
    rewrite Nat.Div0.mod_add. apply Nat.mod_small, Hg.
  - intros (Hj & Hm). exists (j / s). split; [|exact Hj].
    pose proof (Nat.div_mod_eq j s). lia.
Qed.

Lemma stripe_nil (g s n : nat) : n <= g -> stripe g s n = [].
Proof.
  intro H. unfold stripe, stripe_len.
  destruct (Nat.leb_spec n g); [reflexivity | lia].
Qed.

Lemma stripe_cons (g s n : nat) :
  0 < s -> g < n -> stripe g s n = g :: stripe (g + s) s n.
Proof.
  intros Hs Hg.
  assert (Hlen : stripe_len g s n = S (stripe_len (g + s) s n)).
  { unfold stripe_len.
    destruct (Nat.leb_spec n g); [lia|].
    destruct (Nat.leb_spec n (g + s)).
    - rewrite Nat.div_small by lia. reflexivity.
    - replace (n - g - 1) with ((n - (g + s) - 1) + 1 * s) by lia.
      rewrite Nat.div_add by lia. lia. }
  unfold stripe. rewrite Hlen. cbn [seq map]. f_equal; [lia|].
  rewrite <- seq_shift, map_map. apply map_ext. intro k. lia.
Qed.

Lemma stripe_below (g s n : nat) :
  0 < s -> Forall (fun j => j < n) (stripe g s n).
Proof.
  intro Hs. apply Forall_forall. intros j Hj.
  apply in_stripe_iff in Hj; [|exact Hs]. now destruct Hj as (k & _ & Hk).
Qed.

Lemma stripe_increasing (g s n : nat) : 0 < s -> Sorted lt (stripe g s n).
Proof.
  intro Hs. unfold stripe. generalize (stripe_len g s n) as len. generalize 0 as a.
  intros a len; revert a; induction len as [|len IH]; intro a; simpl; [constructor|].
  constructor; [apply IH|].
  destruct len; simpl; constructor. nia.
Qed.

Lemma stripe_NoDup (g s n : nat) : 0 < s -> NoDup (stripe g s n).
Proof.
  intro Hs. unfold stripe. apply NoDup_map_NoDup_ForallPairs; [|apply seq_NoDup].
  intros x y _ _ E. nia.
Qed.

Lemma NoDup_flat_map_disjoint {A B : Type} (f : A -> list B) (l : list A) :
  NoDup l ->
  (forall x, In x l -> NoDup (f x)) ->
  (forall x y b, In x l -> In y l -> x <> y -> In b (f x) -> ~ In b (f y)) ->
  NoDup (flat_map f l).
Proof.
  induction 1 as [|x l Hx Hl IH]; intros Hnd Hdis; simpl; [constructor|].
  apply NoDup_app.
  - apply Hnd. now left.
  - apply IH.
    + intros y Hy. apply Hnd. now right.
    + intros y z b Hy Hz. apply Hdis; now right.
  - intros b Hb Hin. apply in_flat_map in Hin. destruct Hin as (y & Hy & Hby).
    apply (Hdis x y b); [now left | now right | | exact Hb | exact Hby].
    intros ->. contradiction.
Qed.

(** The stripes of the positions [0 .. s-1] are the indices below [n],
    each once. *)
Lemma stripes_cover (s n : nat) :
  0 < s -> Permutation (flat_map (fun g => stripe g s n) (seq 0 s)) (seq 0 n).
Proof.
  intro Hs. apply NoDup_Permutation.
  - apply NoDup_flat_map_disjoint.
    + apply seq_NoDup.
    + intros g _. now apply stripe_NoDup.
    + intros g g' j Hg Hg' Hne Hj Hj'.
      apply in_seq in Hg, Hg'.
      apply in_stripe_mod in Hj; [|lia]. apply in_stripe_mod in Hj'; [|lia]. lia.
  - apply seq_NoDup.
  - intro j. rewrite in_flat_map, in_seq. split.
    + intros (g & Hg & Hj). apply in_seq in Hg. apply in_stripe_mod in Hj; lia.
    + intros Hj. exists (j mod s).
      pose proof (Nat.mod_upper_bound j s ltac:(lia)).
      split; [apply in_seq; lia|]. apply in_stripe_mod; lia.
Qed.

Lemma items_at_all {Item : Type} (values : list Item) :
  items_at values (seq 0 (length values)) = values.
Proof.
  unfold items_at.
  enough (H : forall pre, flat_map (fun j => match nth_error (pre ++ values) j with
                                             | Some x => [x] | None => [] end)
                            (seq (length pre) (length values)) = values)
    by exact (H []).
  induction values as [|x values IH]; intro pre; simpl; [reflexivity|].
  rewrite nth_error_app2, Nat.sub_diag by lia. simpl. f_equal.
  specialize (IH (pre ++ [x])). rewrite <- app_assoc, length_app in IH. simpl in IH.
  now rewrite Nat.add_1_r in IH.
Qed.

Lemma items_at_lookup {Item : Type} (values : list Item) (idxs : list nat) :
  Forall (fun j => j < length values) idxs ->
  map Some (items_at values idxs) = map (nth_error values) idxs.
Proof.
  unfold items_at. induction 1 as [|j idxs Hj _ IH]; simpl; [reflexivity|].
  destruct (nth_error values j) as [x|] eqn:E.
  - simpl. now rewrite IH.
  - apply nth_error_None in E. lia.
Qed.

(** [list(it)] on an iterator whose stride is positive, the calls of
    [Barrier()] returning: the loop ends and the items are those at the
    indices [i, i+s, i+2s, ...] below the number of items. *)
Lemma drain_stripe {Item : Type} (fuel : nat) :
  forall (it : ParallelIter.t Item) (w : World),
    0 < Get_size (ParallelIter.cpus it) ->
    length (ParallelIter.values it) - ParallelIter.i it < fuel ->
    exists w',
      drain fuel it w
      = Some (w', Ok (items_at (ParallelIter.values it)
                        (stripe (ParallelIter.i it) (Get_size (ParallelIter.cpus it))
                                (length (ParallelIter.values it)))))
      /\ ParallelisationStack w' = ParallelisationStack w.
Proof.
  induction fuel as [|fuel IH]; intros it w Hs Hfuel; [lia|].
  cbn [drain]. rewrite next_unfold.
  destruct (Nat.leb_spec (length (ParallelIter.values it)) (ParallelIter.i it)) as [Hle|Hlt].
  { rewrite stripe_nil by exact Hle. eexists. split; reflexivity. }
  destruct (nth_error (ParallelIter.values it) (ParallelIter.i it)) as [x|] eqn:E;
    [|apply nth_error_None in E; lia].
  set (w1 := mkWorld _ _ _). set (it1 := ParallelIter.mk _ _ _ _).
  destruct (IH it1 w1) as (w' & Ed & Hst).
  { exact Hs. }
  { unfold it1. simpl. lia. }
  rewrite Ed. unfold it1. cbn [ParallelIter.values ParallelIter.i ParallelIter.cpus].
  rewrite (stripe_cons Hs Hlt). unfold items_at at 2. cbn [flat_map]. rewrite E.
  exists w'. split; [reflexivity | exact Hst].
Qed.

Lemma items_at_flat_map {Item A : Type} (values : list Item)
  (f : A -> list nat) (l : list A) :
  items_at values (flat_map f l) = flat_map (fun a => items_at values (f a)) l.
Proof.
  unfold items_at. induction l as [|a l IH]; simpl; [reflexivity|].
  now rewrite flat_map_app, IH.
Qed.

(** The shares of the positions [0 .. s-1] together are the items, each
    once. *)
Lemma shares_cover {Item : Type} (values : list Item) (s : nat) :
  0 < s ->
  Permutation
    (flat_map (fun g => items_at values (stripe g s (length values))) (seq 0 s))
    values.
Proof.
  intro Hs. rewrite <- items_at_flat_map.
  transitivity (items_at values (seq 0 (length values))).
  - unfold items_at. apply Permutation_flat_map, stripes_cover, Hs.
  - now rewrite items_at_all.
Qed.

(** ** The groups of a split *)

Lemma insert_by_least (key : nat -> Z) (x : nat) (l : list nat) :
  Forall (fun y => (key x <= key y)%Z) l -> insert_by key x l = x :: l.
Proof.
  destruct 1 as [|y l Hy _]; simpl; [reflexivity|].
  destruct (Z.leb_spec (key x) (key y)); [reflexivity | lia].
Qed.

Lemma sort_by_sorted (key : nat -> Z) (l : list nat) :
  StronglySorted (fun a b => (key a <= key b)%Z) l -> sort_by key l = l.
Proof.
  induction 1 as [|x l _ IH Hx]; simpl; [reflexivity|].
  rewrite IH. now apply insert_by_least.
Qed.

Lemma seq_strongly_sorted (a n : nat) : StronglySorted lt (seq a n).
Proof.
  revert a; induction n as [|n IH]; intro a; simpl; constructor; [apply IH|].
  apply Forall_forall. intros y Hy. apply in_seq in Hy. lia.
Qed.

Lemma filter_strongly_sorted (f : nat -> bool) (l : list nat) :
  StronglySorted lt l -> StronglySorted lt (filter f l).
Proof.
  induction 1 as [|x l _ IH Hx]; simpl; [constructor|].
  destruct (f x); [|exact IH]. constructor; [exact IH|].
  apply Forall_forall. intros y Hy. apply filter_In in Hy.
  rewrite Forall_forall in Hx. apply Hx, Hy.
Qed.

Lemma strongly_sorted_weaken {A : Type} (R R' : A -> A -> Prop) (l : list A) :
  (forall a b, R a b -> R' a b) -> StronglySorted R l -> StronglySorted R' l.
Proof.
  intro HR. induction 1 as [|x l _ IH Hx]; constructor; [exact IH|].
  eapply Forall_impl; [|exact Hx]. intros b. apply HR.
Qed.

(** With the rank as key, the members of a group stay in rank order. *)
Lemma split_ranks_by_rank (size : nat) (colour : nat -> Z) (rank : nat) :
  split_ranks size colour Z.of_nat rank
  = filter (fun j => (colour j =? colour rank)%Z) (seq 0 size).
Proof.
  unfold split_ranks. apply sort_by_sorted.
  eapply strongly_sorted_weaken; [|apply filter_strongly_sorted, seq_strongly_sorted].
  intros a b Hab. simpl in Hab. lia.
Qed.

Lemma in_split_ranks (size : nat) (colour : nat -> Z) (rank a : nat) :
  In a (split_ranks size colour Z.of_nat rank) <-> a < size /\ colour a = colour rank.
Proof.
  rewrite split_ranks_by_rank, filter_In, in_seq, Z.eqb_eq. intuition lia.
Qed.

Lemma split_ranks_sorted (size : nat) (colour : nat -> Z) (rank : nat) :
  Sorted lt (split_ranks size colour Z.of_nat rank).
Proof.
  rewrite split_ranks_by_rank.
  apply StronglySorted_Sorted, filter_strongly_sorted, seq_strongly_sorted.
Qed.

Lemma split_ranks_NoDup (size : nat) (colour : nat -> Z) (rank : nat) :
  NoDup (split_ranks size colour Z.of_nat rank).
Proof.
  rewrite split_ranks_by_rank. apply NoDup_filter, seq_NoDup.
Qed.

(** A rank is in the group of another exactly when the two have the same
    group. *)
Lemma split_ranks_class (size : nat) (colour : nat -> Z) (a rank : nat) :
  a < size ->
  (In a (split_ranks size colour Z.of_nat rank)
   <-> split_ranks size colour Z.of_nat rank = split_ranks size colour Z.of_nat a).
Proof.
  intro Ha. split.
  - intro Hin. apply in_split_ranks in Hin. destruct Hin as [_ Hc].
    rewrite !split_ranks_by_rank. apply filter_ext. intro j. now rewrite Hc.
  - intros ->. apply in_split_ranks. split; [exact Ha | reflexivity].
Qed.

(** The ranks below [n] that are [c] modulo [m]: [n / m] of them, and one
    more when [c < n mod m]. *)
Lemma count_residue (m c n : nat) :
  c < m ->
  length (filter (fun j => j mod m =? c) (seq 0 n))
  = n / m + (if c <? n mod m then 1 else 0).
Proof.
  intro Hc. induction n as [|n IH].
  - rewrite Nat.Div0.div_0_l, Nat.Div0.mod_0_l. reflexivity.
  - rewrite seq_S, filter_app, length_app, IH. cbn [filter Nat.add].
    pose proof (Nat.div_mod_eq n m) as Hn.
    pose proof (Nat.mod_upper_bound n m ltac:(lia)) as Hr.
    set (q := n / m) in *. set (r := n mod m) in *.
    destruct (Nat.eq_dec (S r) m) as [Hw|Hw].
    + assert (Hq : S n / m = S q) by (symmetry; apply (Nat.div_unique _ _ _ 0); lia).
      assert (Hm : S n mod m = 0) by (symmetry; apply (Nat.mod_unique _ _ (S q)); lia).
      rewrite Hq, Hm.
      destruct (Nat.eqb_spec r c), (Nat.ltb_spec c r), (Nat.ltb_spec c 0);
        simpl; lia.
    + assert (Hq : S n / m = q) by (symmetry; apply (Nat.div_unique _ _ _ (S r)); lia).
      assert (Hm : S n mod m = S r) by (symmetry; apply (Nat.mod_unique _ _ q); lia).
      rewrite Hq, Hm.
      destruct (Nat.eqb_spec r c), (Nat.ltb_spec c r), (Nat.ltb_spec c (S r));
        simpl; lia.
Qed.

Lemma inner_group_filter (size m rank : nat) :
  0 < m ->
  inner_group size (Z.of_nat m) rank
  = filter (fun j => j mod m =? rank mod m) (seq 0 size).
Proof.
  intro Hm. unfold inner_group. rewrite split_ranks_by_rank.
  apply filter_ext. intro j. rewrite <- !Nat2Z.inj_mod.
  destruct (Nat.eqb_spec (j mod m) (rank mod m)) as [->|Hne].
  - apply Z.eqb_refl.
  - apply Z.eqb_neq. lia.
Qed.

Lemma inner_group_length (size m rank : nat) :
  0 < m ->
  length (inner_group size (Z.of_nat m) rank)
  = size / m + (if rank mod m <? size mod m then 1 else 0).
Proof.
  intro Hm. rewrite inner_group_filter by exact Hm.
  apply count_residue, Nat.mod_upper_bound. lia.
Qed.

(** The groups of the colours [0 .. m-1] are the ranks, each once. *)
Lemma inner_groups_cover (size m : nat) :
  0 < m ->
  Permutation (flat_map (inner_group size (Z.of_nat m)) (seq 0 m)) (seq 0 size).
Proof.
  intro Hm. apply NoDup_Permutation.
  - apply NoDup_flat_map_disjoint.
    + apply seq_NoDup.
    + intros c _. apply split_ranks_NoDup.
    + intros c c' j Hc Hc' Hne Hj Hj'. apply in_seq in Hc, Hc'.
      rewrite inner_group_filter in Hj, Hj' by exact Hm.
      apply filter_In in Hj, Hj'. destruct Hj as [_ Hj], Hj' as [_ Hj'].
      apply Nat.eqb_eq in Hj, Hj'.
      rewrite (Nat.mod_small c m) in Hj by lia.
      rewrite (Nat.mod_small c' m) in Hj' by lia. lia.
  - apply seq_NoDup.
  - intro j. rewrite in_flat_map, in_seq. split.
    + intros (c & _ & Hj). rewrite inner_group_filter in Hj by exact Hm.
      apply filter_In in Hj. destruct Hj as [Hj _]. apply in_seq in Hj. lia.
    + intros Hj. exists (j mod m).
      pose proof (Nat.mod_upper_bound j m ltac:(lia)).
      split; [apply in_seq; lia|].
      rewrite inner_group_filter by exact Hm. apply filter_In.
      split; [apply in_seq; lia|]. apply Nat.eqb_eq.
      now rewrite Nat.Div0.mod_mod.
Qed.

(** C7. On a communicator of size [S] whose caller has rank [r], with
    [1 < group_count < S] for [group_count = min(J, S)]:
    [getSplitCommunicators(J)] returns the communicators of
    [Split(r // group_count, r)] and [Split(r % group_count, r)], in that
    order.  With the members of a split those of equal colour, in key
    order: a rank is in an outer (inner) group exactly when its quotient
    (remainder) by [group_count] is that of the group, so every rank is in
    its own outer and inner group and in no other; the inner groups of the
    remainders [0 .. group_count-1] are not empty and together are the
    ranks [0 .. S-1], each once; two inner groups differ in size by at
    most one. *)
Theorem split_middle_case (rest : list Communicator) (o : nat) (g : list nat)
  (r n : nat) (tr : list Event) (J : Z) :
  r < length g ->
  let size := length g in
  let gc := Z.min J (Z.of_nat size) in
  (1 < gc < Z.of_nat size)%Z ->
  getSplitCommunicators J (mkWorld (rest ++ [MPIComm o g r]) n tr)
  = (mkWorld (rest ++ [MPIComm o g r]) (S (S n))
       (tr ++ [EvSplit o (Z.of_nat r / gc) (Z.of_nat r);
               EvSplit o (Z.of_nat r mod gc) (Z.of_nat r)]),
     Ok (MPIComm n (map (fun j => nth j g 0) (outer_group size gc r))
                 (index_of r (outer_group size gc r)),
         MPIComm (S n) (map (fun j => nth j g 0) (inner_group size gc r))
                 (index_of r (inner_group size gc r))))
  /\ (forall a b, In a (outer_group size gc b)
                  <-> a < size /\ (Z.of_nat a / gc = Z.of_nat b / gc)%Z)
  /\ (forall a b, In a (inner_group size gc b)
                  <-> a < size /\ (Z.of_nat a mod gc = Z.of_nat b mod gc)%Z)
  /\ (forall b, Sorted lt (outer_group size gc b) /\ Sorted lt (inner_group size gc b))
  /\ (forall a b, a < size ->
        (In a (outer_group size gc b) <-> outer_group size gc b = outer_group size gc a))
  /\ (forall a b, a < size ->
        (In a (inner_group size gc b) <-> inner_group size gc b = inner_group size gc a))
  /\ Permutation (flat_map (inner_group size gc) (seq 0 (Z.to_nat gc))) (seq 0 size)
  /\ (forall c, c < Z.to_nat gc -> inner_group size gc c <> [])
  /\ (forall a b, a < size -> b < size ->
        length (inner_group size gc a) <= length (inner_group size gc b) + 1).
Proof.
  intros Hr size gc Hgc.
  assert (Hm : gc = Z.of_nat (Z.to_nat gc)) by lia.
  assert (Hm0 : 0 < Z.to_nat gc) by lia.
  split.
  { pose proof (getSplitCommunicators_top rest (MPIComm o g r) n tr J) as E.
    cbv zeta in E. rewrite E. clear E.
    cbn [Get_size]. fold size. fold gc.
    destruct (Z.ltb_spec 0 J); [|lia].
    destruct (Z.eqb_spec gc 1); [lia|].
    destruct (Z.eqb_spec gc (Z.of_nat size)); [lia|].
    unfold bind, Split, ret. cbn [ParallelisationStack next_oid trace].
    rewrite <- app_assoc. reflexivity. }
  split; [intros a b; apply in_split_ranks|].
  split; [intros a b; apply in_split_ranks|].
  split; [intro b; split; apply split_ranks_sorted|].
  split; [intros a b Ha; now apply split_ranks_class|].
  split; [intros a b Ha; now apply split_ranks_class|].
  split; [rewrite Hm at 1; now apply inner_groups_cover|].
  split.
  { intros c Hc Hnil.
    assert (Hin : In c (inner_group size gc c)).
    { apply in_split_ranks. split; [lia | reflexivity]. }
    rewrite Hnil in Hin. contradiction. }
  intros a b _ _. rewrite Hm, !inner_group_length by exact Hm0.
  destruct (a mod Z.to_nat gc <? size mod Z.to_nat gc),
           (b mod Z.to_nat gc <? size mod Z.to_nat gc); lia.
Qed.

Lemma split_middle_case_witness :
  getSplitCommunicators 2 (mkWorld ([] ++ [MPIComm 0 [0; 1; 2; 3; 4] 3]) 1 [])
  = (mkWorld [MPIComm 0 [0; 1; 2; 3; 4] 3] 3 [EvSplit 0 1 3; EvSplit 0 1 3],
     Ok (MPIComm 1 [2; 3] 1, MPIComm 2 [1; 3] 1))
  /\ Permutation (flat_map (inner_group 5 2) (seq 0 2)) (seq 0 5)
  /\ length (inner_group 5 2 0) <= length (inner_group 5 2 1) + 1.
Proof.
  pose proof (@split_middle_case [] 0 [0; 1; 2; 3; 4] 3 1 [] 2
                ltac:(simpl; lia) ltac:(simpl; lia)) as W.
  destruct W as (W1 & _ & _ & _ & _ & _ & W2 & _ & W3).
  split; [exact W1|]. split; [exact W2|]. apply W3; simpl; lia.
Defined.

(** * Further properties *)

(** ** The stack, continued *)

Lemma push_unfold (c : Communicator) (st : list Communicator) (n : nat)
  (tr : list Event) :
  push c (mkWorld st n tr)
  = (mkWorld (st ++ [c]) n (tr ++ [EvPush (oid_of c)]), Ok tt).
Proof. reflexivity. Qed.

(** X1. Pushes and pops nest: after [push(A); push(B)], [pop(B)] returns
    [B] and [pop(A)] returns [A], neither assertion fails, and the stack is
    what it was before the two pushes, whatever it was (also empty);
    between a push and its pop, [getCommunicator()] returns what was
    pushed and changes nothing. *)
Theorem push_pop_nested (A B : Communicator) (st : list Communicator) (n : nat)
  (tr : list Event) :
  (push A ;;; push B ;;; b <- pop (Some B) ;; a <- pop (Some A) ;; ret (b, a))
    (mkWorld st n tr)
  = (mkWorld st n (tr ++ [EvPush (oid_of A); EvPush (oid_of B);
                          EvPop (oid_of B); EvPop (oid_of A)]), Ok (B, A))
  /\ (push A ;;; c <- getCommunicator ;; pop None ;;; ret c) (mkWorld st n tr)
     = (mkWorld st n (tr ++ [EvPush (oid_of A); EvPop (oid_of A)]), Ok A).
Proof.
  split.
  - unfold bind at 1. rewrite push_unfold.
    unfold bind at 1. rewrite push_unfold.
    unfold bind at 1. rewrite pop_top, is_refl.
    unfold bind at 1. rewrite pop_top, is_refl.
    unfold ret. now rewrite <- !app_assoc.
  - unfold bind at 1. rewrite push_unfold.
    unfold bind at 1. rewrite getCommunicator_top.
    unfold bind at 1. rewrite pop_top.
    unfold ret. now rewrite <- !app_assoc.
Qed.

(** X2. On an empty stack everything that reads the stack raises
    [IndexError] and changes nothing: [getCommunicator()], [pop] with or
    without an expected communicator, [getSplitCommunicators(jobs)] for
    every [jobs] (the stack is read before [jobs > 0] is asserted, so
    also for [jobs <= 0]), [localShareOf(tasks)] and the loop over it, and
    [sync_random]. *)
Theorem empty_stack_raises_IndexError {Item G St : Type} `{StatefulSource G St}
  (mpi_bcast : nat -> list nat -> nat -> St -> nat -> M St) (r : G)
  (body : Item -> World -> World * Completion) (tasks : list Item)
  (expected : option Communicator) (jobs : Z) (n : nat) (tr : list Event) :
  let w := mkWorld [] n tr in
  getCommunicator w = (w, Raise IndexError)
  /\ pop expected w = (w, Raise IndexError)
  /\ getSplitCommunicators jobs w = (w, Raise IndexError)
  /\ localShareOf.__init__ tasks w = (w, Raise IndexError)
  /\ for_localShareOf body tasks w = Some (w, Threw IndexError)
  /\ list_localShareOf tasks w = Some (w, Raise IndexError)
  /\ sync_random mpi_bcast r w = (w, Raise IndexError).
Proof.
  intro w. repeat split; reflexivity.
Qed.

(** X3. [sync_random] in a single process: when the communicator on top of
    the stack has size 1 (a [_FakeCommunicator] always has), the generator
    is returned as it was, nothing is broadcast and the process state is
    unchanged, whatever the [bcast] of the MPI library does.  Otherwise
    the state of the generator is broadcast from rank 0 through that
    communicator and set on the generator. *)
Theorem sync_random_single_process {G St : Type} `{StatefulSource G St}
  (mpi_bcast : nat -> list nat -> nat -> St -> nat -> M St) (r : G)
  (rest : list Communicator) (comm : Communicator) (n : nat) (tr : list Event) :
  let w := mkWorld (rest ++ [comm]) n tr in
  (Get_size comm <= 1 -> sync_random mpi_bcast r w = (w, Ok r))
  /\ (forall o, comm = FakeCommunicator o -> sync_random mpi_bcast r w = (w, Ok r))
  /\ (forall o g k w' st, comm = MPIComm o g k -> 1 < length g ->
        mpi_bcast o g k (rs_getstate r) 0 w = (w', Ok st) ->
        sync_random mpi_bcast r w = (w', Ok (rs_setstate st r))).
Proof.
  intro w.
  assert (E : sync_random mpi_bcast r w
              = if 1 <? Get_size comm
                then (state <- bcast mpi_bcast comm (rs_getstate r) 0 ;;
                      ret (rs_setstate state r)) w
                else (w, Ok r)).
  { unfold sync_random, bind at 1, w. rewrite getCommunicator_top.
    destruct (1 <? Get_size comm); [|reflexivity].
    unfold bind at 1. now rewrite getCommunicator_top. }
  rewrite E. clear E. split; [|split].
  - intro Hs. destruct (Nat.ltb_spec 1 (Get_size comm)); [lia | reflexivity].
  - intros o ->. reflexivity.
  - intros o g k w' st -> Hg Eb. simpl Get_size.
    destruct (Nat.ltb_spec 1 (length g)); [|lia].
    unfold bind, bcast. now rewrite Eb.
Qed.

Lemma sync_random_single_process_witness :
  sync_random (fun _ _ _ st _ => ret (st + 100)) (5 : nat)
    (mkWorld ([] ++ [MPIComm 3 [8] 0]) 4 [])
  = (mkWorld ([] ++ [MPIComm 3 [8] 0]) 4 [], Ok 5)
  /\ sync_random (fun _ _ _ st _ => ret (st + 100)) (5 : nat)
       (mkWorld ([] ++ [MPIComm 3 [8; 9] 1]) 4 [])
     = (mkWorld ([] ++ [MPIComm 3 [8; 9] 1]) 4 [], Ok 105).
Proof.
  split.
  - apply (sync_random_single_process (fun _ _ _ st _ => ret (st + 100)) (5 : nat)
             [] (MPIComm 3 [8] 0) 4 []). simpl. lia.
  - pose proof (sync_random_single_process (fun _ _ _ st _ => ret (st + 100)) (5 : nat)
                  [] (MPIComm 3 [8; 9] 1) 4 []) as W.
    cbv zeta in W. destruct W as (_ & _ & W).
    apply (W 3 [8; 9] 1); [reflexivity | simpl; lia | reflexivity].
Defined.

(** ** The phased random generator, continued *)

Section PhasedMore.
Context {G R V : Type} `{RandomSource G R V}.

Lemma nth_call_from_state (self : ParaRandom.t G) (n : nat) :
  ParaRandom.nth_call n self
  = ParaRandom.draw (ParaRandom._rng self)
      (n * S (range_len (ParaRandom._num_proc self))).
Proof.
  unfold ParaRandom.nth_call. rewrite random_fst, after_calls_rng.
  unfold ParaRandom.draw. reflexivity.
Qed.

Lemma discard_ParaRandom (k : nat) (self : ParaRandom.t G) :
  ParaRandom.discard k self = ParaRandom.after_calls k self.
Proof.
  revert self; induction k as [|k IH]; intro self; simpl; [reflexivity | apply IH].
Qed.

Lemma draw_ParaRandom (k : nat) (self : ParaRandom.t G) :
  ParaRandom.draw self k = ParaRandom.nth_call k self.
Proof.
  unfold ParaRandom.draw, ParaRandom.nth_call. now rewrite discard_ParaRandom.
Qed.

End PhasedMore.

(** X4. The phases of different ranks never meet: with [0 <= r, r' < P]
    and [r <> r'], call [n] on rank [r] and call [n'] on rank [r'] return
    draws of the wrapped generator at different positions, for all [n] and
    [n']; the position of call [n] on rank [r] is [r + n * (P + 1)], and
    no rank is ever given a draw whose position is [P] modulo [P + 1]. *)
Theorem phases_never_meet {G R V : Type} `{RandomSource G R V}
  (g : G) (P r r' : Z) (n n' : nat) :
  (0 <= r < P)%Z -> (0 <= r' < P)%Z -> r <> r' ->
  let pos := fun (q : Z) (k : nat) => Z.to_nat q + k * S (Z.to_nat P) in
  ParaRandom.nth_call n (ParaRandom.__init__ g P r) = ParaRandom.draw g (pos r n)
  /\ ParaRandom.nth_call n' (ParaRandom.__init__ g P r') = ParaRandom.draw g (pos r' n')
  /\ pos r n <> pos r' n'
  /\ pos r n mod S (Z.to_nat P) <> Z.to_nat P.
Proof.
  intros Hr Hr' Hne pos.
  split; [apply nth_call_index|]. split; [apply nth_call_index|].
  assert (Hmod : forall q k, (0 <= q < P)%Z -> pos q k mod S (Z.to_nat P) = Z.to_nat q).
  { intros q k Hq. unfold pos. rewrite Nat.Div0.mod_add. apply Nat.mod_small. lia. }
  split.
  - intro E. apply (f_equal (fun x => x mod S (Z.to_nat P))) in E.
    rewrite !Hmod in E by assumption. lia.
  - rewrite Hmod by assumption. lia.
Qed.

Lemma phases_never_meet_witness :
  ParaRandom.nth_call 2 (ParaRandom.__init__ (0 : nat) 3 1) = 9
  /\ ParaRandom.nth_call 2 (ParaRandom.__init__ (0 : nat) 3 2) = 10
  /\ 1 + 2 * 4 <> 2 + 2 * 4
  /\ (1 + 2 * 4) mod 4 <> 3.
Proof.
  exact (@phases_never_meet nat nat nat _ 0 3 1 2 2 2
           ltac:(lia) ltac:(lia) ltac:(lia)).
Defined.

(** X5. A [ParaRandom] wrapped in a [ParaRandom] ("can safely be used on
    itself"): call [n] of the inner wrapper, of [P2] processes and rank
    [r2], over an outer wrapper of [P1] processes and rank [r1], is call
    [r2 + n * (P2 + 1)] of the outer wrapper alone, that is draw
    [r1 + (r2 + n * (P2 + 1)) * (P1 + 1)] of the generator underneath. *)
Theorem nested_phasing {G R V : Type} `{RandomSource G R V}
  (g : G) (P1 r1 P2 r2 : Z) (n : nat) :
  let outer := ParaRandom.__init__ g P1 r1 in
  let inner := ParaRandom.__init__ outer P2 r2 in
  ParaRandom.nth_call n inner
  = ParaRandom.nth_call (range_len r2 + n * S (range_len P2)) outer
  /\ ParaRandom.nth_call n inner
     = ParaRandom.draw g
         (range_len r1 + (range_len r2 + n * S (range_len P2)) * S (range_len P1)).
Proof.
  intros outer inner.
  assert (E : ParaRandom.nth_call n inner
              = ParaRandom.nth_call (range_len r2 + n * S (range_len P2)) outer).
  { unfold inner. rewrite nth_call_index. apply draw_ParaRandom. }
  split; [exact E|]. rewrite E. apply nth_call_index.
Qed.

(** X6. After [seed(v)] the phases are gone for good, not for the first
    draw only: call [n] of a reseeded instance is draw [n * (P + 1)] of the
    reseeded generator, so when the generator's [seed] sets its state from
    the value alone, two instances with the same number of processes
    return the same value at every call, whatever their ranks. *)
Theorem reseeded_ranks_share_a_stream {G R V : Type} `{RandomSource G R V}
  (self other : ParaRandom.t G) (v : V) (n : nat) :
  (forall g1 g2 : G, rs_seed v g1 = rs_seed v g2) ->
  ParaRandom._num_proc self = ParaRandom._num_proc other ->
  ParaRandom.nth_call n (ParaRandom.seed v self)
  = ParaRandom.draw (rs_seed v (ParaRandom._rng self))
      (n * S (range_len (ParaRandom._num_proc self)))
  /\ ParaRandom.nth_call n (ParaRandom.seed v self)
     = ParaRandom.nth_call n (ParaRandom.seed v other).
Proof.
  intros Hseed HP. rewrite !nth_call_from_state. simpl.
  split; [reflexivity|]. now rewrite HP, (Hseed _ (ParaRandom._rng other)).
Qed.

Lemma reseeded_ranks_share_a_stream_witness :
  ParaRandom.nth_call 3 (ParaRandom.seed 42 (ParaRandom.__init__ (0 : nat) 2 0)) = 51
  /\ ParaRandom.nth_call 3 (ParaRandom.seed 42 (ParaRandom.__init__ (0 : nat) 2 0))
     = ParaRandom.nth_call 3 (ParaRandom.seed 42 (ParaRandom.__init__ (0 : nat) 2 1)).
Proof.
  exact (@reseeded_ranks_share_a_stream nat nat nat _
           (ParaRandom.__init__ (0 : nat) 2 0) (ParaRandom.__init__ (0 : nat) 2 1)
           42 3 (fun _ _ => eq_refl) eq_refl).
Defined.

(** ** The group splitter, continued *)

Lemma div_eq_iff (m q j : nat) :
  0 < m -> (j / m = q <-> q * m <= j < S q * m).
Proof.
  intro Hm. pose proof (Nat.div_mod_eq j m) as Hd.
  pose proof (Nat.mod_upper_bound j m ltac:(lia)) as Hr.
  split.
  - intros <-. nia.
  - intros Hq. symmetry. apply (Nat.div_unique j m q (j - q * m)); nia.
Qed.

(** The ranks below [n] whose quotient by [m] is [q]. *)
Lemma count_quotient (m q n : nat) :
  0 < m ->
  length (filter (fun j => j / m =? q) (seq 0 n))
  = Nat.min n (S q * m) - Nat.min n (q * m).
Proof.
  intro Hm. induction n as [|n IH]; [reflexivity|].
  rewrite seq_S, filter_app, length_app, IH. cbn [filter Nat.add].
  destruct (Nat.eqb_spec (n / m) q) as [E|E].
  - apply div_eq_iff in E; [|exact Hm]. simpl length. nia.
  - assert (Hn : n < q * m \/ S q * m <= n).
    { destruct (Nat.lt_ge_cases n (q * m)) as [|H1]; [now left|].
      destruct (Nat.lt_ge_cases n (S q * m)) as [H2|]; [|now right].
      exfalso. apply E. apply div_eq_iff; [exact Hm | lia]. }
    simpl length. nia.
Qed.

Lemma outer_group_filter (size m rank : nat) :
  0 < m ->
  outer_group size (Z.of_nat m) rank
  = filter (fun j => j / m =? rank / m) (seq 0 size).
Proof.
  intro Hm. unfold outer_group. rewrite split_ranks_by_rank.
  apply filter_ext. intro j. rewrite <- !Nat2Z.inj_div.
  destruct (Nat.eqb_spec (j / m) (rank / m)) as [->|Hne].
  - apply Z.eqb_refl.
  - apply Z.eqb_neq. lia.
Qed.

(** The position of a member in a group kept in rank order is the number
    of members of lower rank. *)
Lemma index_of_filter_seq (f : nat -> bool) (r n : nat) :
  forall a, a <= r -> r < a + n -> f r = true ->
  index_of r (filter f (seq a n)) = length (filter f (seq a (r - a))).
Proof.
  induction n as [|n IH]; intros a Ha Hr Hf; [lia|].
  destruct (Nat.eq_dec a r) as [->|Hne].
  - rewrite Nat.sub_diag. simpl. rewrite Hf. simpl. now rewrite Nat.eqb_refl.
  - replace (r - a) with (S (r - S a)) by lia. cbn [seq filter].
    destruct (f a).
    + cbn [index_of length]. destruct (Nat.eqb_spec r a); [lia|].
      f_equal. apply IH; [lia | lia | exact Hf].
    + apply IH; [lia | lia | exact Hf].
Qed.

Lemma outer_group_length (size m rank : nat) :
  0 < m -> rank < size ->
  length (outer_group size (Z.of_nat m) rank) = Nat.min m (size - rank / m * m).
Proof.
  intros Hm Hr. rewrite outer_group_filter, count_quotient by exact Hm.
  pose proof (proj1 (div_eq_iff (rank / m) rank Hm) eq_refl). nia.
Qed.

Lemma outer_group_index (size m rank : nat) :
  0 < m -> rank < size ->
  index_of rank (outer_group size (Z.of_nat m) rank) = rank mod m.
Proof.
  intros Hm Hr. rewrite outer_group_filter by exact Hm.
  rewrite index_of_filter_seq; [|lia|lia|apply Nat.eqb_refl].
  rewrite Nat.sub_0_r, count_quotient by exact Hm.
  pose proof (proj1 (div_eq_iff (rank / m) rank Hm) eq_refl).
  pose proof (Nat.div_mod_eq rank m). nia.
Qed.

Lemma inner_group_index (size m rank : nat) :
  0 < m -> rank < size ->
  index_of rank (inner_group size (Z.of_nat m) rank) = rank / m.
Proof.
  intros Hm Hr. rewrite inner_group_filter by exact Hm.
  rewrite index_of_filter_seq; [|lia|lia|apply Nat.eqb_refl].
  rewrite Nat.sub_0_r, count_residue by (apply Nat.mod_upper_bound; lia).
  rewrite Nat.ltb_irrefl. lia.
Qed.

(** The middle case of [getSplitCommunicators], run. *)
Lemma getSplitCommunicators_middle (rest : list Communicator) (o : nat)
  (g : list nat) (r n : nat) (tr : list Event) (J : Z) :
  let size := length g in
  let gc := Z.min J (Z.of_nat size) in
  (1 < gc < Z.of_nat size)%Z ->
  getSplitCommunicators J (mkWorld (rest ++ [MPIComm o g r]) n tr)
  = (mkWorld (rest ++ [MPIComm o g r]) (S (S n))
       (tr ++ [EvSplit o (Z.of_nat r / gc) (Z.of_nat r);
               EvSplit o (Z.of_nat r mod gc) (Z.of_nat r)]),
     Ok (MPIComm n (map (fun j => nth j g 0) (outer_group size gc r))
                 (index_of r (outer_group size gc r)),
         MPIComm (S n) (map (fun j => nth j g 0) (inner_group size gc r))
                 (index_of r (inner_group size gc r)))).
Proof.
  intros size gc Hgc.
  pose proof (getSplitCommunicators_top rest (MPIComm o g r) n tr J) as E.
  cbv zeta in E. rewrite E. clear E.
  cbn [Get_size]. fold size. fold gc.
  destruct (Z.ltb_spec 0 J); [|lia].
  destruct (Z.eqb_spec gc 1); [lia|].
  destruct (Z.eqb_spec gc (Z.of_nat size)); [lia|].
  unfold bind, Split, ret. cbn [ParallelisationStack next_oid trace].
  rewrite <- app_assoc. reflexivity.
Qed.

(** What [getSplitCommunicators] returns when it returns: the caller belongs
    to both communicators, and [cpus] has no more processes than there
    are jobs, nor more than the communicator that was split. *)
Lemma getSplitCommunicators_run (rest : list Communicator) (comm : Communicator)
  (n : nat) (tr : list Event) (jobs : Z) :
  wf_comm comm -> (0 < jobs)%Z ->
  exists n' pre cpus leftover,
    getSplitCommunicators jobs (mkWorld (rest ++ [comm]) n tr)
    = (mkWorld (rest ++ [comm]) n' (tr ++ pre), Ok (cpus, leftover))
    /\ forallb is_split pre = true
    /\ wf_comm cpus /\ wf_comm leftover
    /\ (Z.of_nat (Get_size cpus) <= jobs)%Z
    /\ Get_size cpus <= Get_size comm
    /\ Get_size leftover <= Get_size comm
    /\ n < n'
    /\ (Z.min jobs (Z.of_nat (Get_size comm)) = 1%Z -> Get_size cpus = 1).
Proof.
  intros Hwf Hj. unfold wf_comm in Hwf.
  pose proof (getSplitCommunicators_top rest comm n tr jobs) as E. cbv zeta in E.
  destruct (Z.eqb_spec (Z.min jobs (Z.of_nat (Get_size comm))) 1) as [E1|E1].
  { rewrite E. destruct (Z.ltb_spec 0 jobs); [|lia].
    exists (S n), [], (FakeCommunicator n), comm. rewrite app_nil_r.
    unfold wf_comm. simpl. repeat split; lia. }
  destruct (Z.eqb_spec (Z.min jobs (Z.of_nat (Get_size comm))) (Z.of_nat (Get_size comm)))
    as [E2|E2].
  { rewrite E. destruct (Z.ltb_spec 0 jobs); [|lia].
    exists (S n), [], comm, (FakeCommunicator n). rewrite app_nil_r.
    unfold wf_comm. simpl. repeat split; lia. }
  clear E. destruct comm as [o|o g r]; [exfalso; apply E1; simpl; lia|].
  simpl in Hwf, E1, E2.
  assert (Hgc : (1 < Z.min jobs (Z.of_nat (length g)) < Z.of_nat (length g))%Z) by lia.
  pose proof (@getSplitCommunicators_middle rest o g r n tr jobs Hgc) as E.
  cbv zeta in E. rewrite E. clear E.
  set (m := Z.to_nat (Z.min jobs (Z.of_nat (length g)))).
  assert (Hm : Z.min jobs (Z.of_nat (length g)) = Z.of_nat m) by (unfold m; lia).
  assert (Hm0 : 0 < m) by lia.
  rewrite Hm.
  do 4 eexists. split; [reflexivity|]. split; [reflexivity|].
  unfold wf_comm. cbn [Get_rank Get_size]. rewrite !length_map.
  rewrite outer_group_index, inner_group_index, outer_group_length by assumption.
  pose proof (Nat.mod_upper_bound r m ltac:(lia)) as Hrm.
  pose proof (proj1 (div_eq_iff (r / m) r Hm0) eq_refl) as Hq.
  pose proof (Nat.div_mod_eq r m) as Hd.
  assert (Hin : r / m < length (inner_group (length g) (Z.of_nat m) r)).
  { rewrite <- (inner_group_index Hm0 Hwf) at 1.
    apply index_of_lt. apply in_split_ranks. split; [exact Hwf | reflexivity]. }
  assert (Hle : length (inner_group (length g) (Z.of_nat m) r) <= length g).
  { rewrite inner_group_filter by exact Hm0.
    etransitivity; [apply filter_length_le | now rewrite length_seq]. }
  repeat split; try lia; try nia.
Qed.

(** X7. With at least one job and, on top of the stack, a communicator the
    caller belongs to, [getSplitCommunicators] returns a pair; it leaves the
    stack as it is and calls nothing but [Split]; the caller belongs to
    both communicators of the pair; the first has at most [jobs] processes,
    and neither has more processes than the communicator on the stack. *)
Theorem getSplitCommunicators_returns (rest : list Communicator)
  (comm : Communicator) (n : nat) (tr : list Event) (jobs : Z) :
  wf_comm comm -> (0 < jobs)%Z ->
  exists w' cpus leftover,
    getSplitCommunicators jobs (mkWorld (rest ++ [comm]) n tr) = (w', Ok (cpus, leftover))
    /\ ParallelisationStack w' = rest ++ [comm]
    /\ (exists pre, trace w' = tr ++ pre /\ forallb is_split pre = true)
    /\ Get_rank cpus < Get_size cpus
    /\ Get_rank leftover < Get_size leftover
    /\ (Z.of_nat (Get_size cpus) <= jobs)%Z
    /\ Get_size cpus <= Get_size comm
    /\ Get_size leftover <= Get_size comm.
Proof.
  intros Hwf Hj.
  destruct (getSplitCommunicators_run rest n tr Hwf Hj)
    as (n' & pre & cpus & leftover & E & Hpre & Hc & Hl & Hcj & Hcs & Hls & _).
  exists (mkWorld (rest ++ [comm]) n' (tr ++ pre)), cpus, leftover.
  split; [exact E|]. split; [reflexivity|]. split; [now exists pre|].
  repeat split; assumption.
Qed.

Lemma getSplitCommunicators_returns_witness :
  exists w' cpus leftover,
    getSplitCommunicators 2 (mkWorld ([] ++ [MPIComm 0 [0; 1; 2; 3; 4] 4]) 1 [])
    = (w', Ok (cpus, leftover))
    /\ ParallelisationStack w' = [] ++ [MPIComm 0 [0; 1; 2; 3; 4] 4]
    /\ (exists pre, trace w' = [] ++ pre /\ forallb is_split pre = true)
    /\ Get_rank cpus < Get_size cpus
    /\ Get_rank leftover < Get_size leftover
    /\ (Z.of_nat (Get_size cpus) <= 2)%Z
    /\ Get_size cpus <= 5
    /\ Get_size leftover <= 5.
Proof.
  apply (@getSplitCommunicators_returns [] (MPIComm 0 [0; 1; 2; 3; 4] 4) 1 [] 2).
  - unfold wf_comm. simpl. lia.
  - lia.
Defined.

(** X8. Where the caller ends up when [1 < group_count < size]: with
    [m = group_count], the caller of rank [r] has rank [r % m] in the first
    communicator of the pair, whose size is [m], or what is left of the
    ranks from [(r // m) * m] on when that is less; it has rank [r // m] in
    the second, whose size is [size // m], and one more when
    [r % m < size % m]. *)
Theorem split_positions (rest : list Communicator) (o : nat) (g : list nat)
  (r n : nat) (tr : list Event) (J : Z) :
  r < length g ->
  let size := length g in
  let m := Z.to_nat (Z.min J (Z.of_nat size)) in
  (1 < Z.min J (Z.of_nat size) < Z.of_nat size)%Z ->
  exists w' next sub,
    getSplitCommunicators J (mkWorld (rest ++ [MPIComm o g r]) n tr) = (w', Ok (next, sub))
    /\ Get_rank next = r mod m
    /\ Get_size next = Nat.min m (size - r / m * m)
    /\ Get_rank sub = r / m
    /\ Get_size sub = size / m + (if r mod m <? size mod m then 1 else 0).
Proof.
  intros Hr size m Hgc.
  pose proof (@getSplitCommunicators_middle rest o g r n tr J Hgc) as E.
  cbv zeta in E. fold size in E.
  assert (Hm : Z.min J (Z.of_nat size) = Z.of_nat m) by (unfold m; lia).
  assert (Hm0 : 0 < m) by lia.
  rewrite Hm in E.
  do 3 eexists. split; [exact E|].
  cbn [Get_rank Get_size]. rewrite !length_map.
  split; [now apply outer_group_index|].
  split; [now apply outer_group_length|].
  split; [now apply inner_group_index|].
  now apply inner_group_length.
Qed.

Lemma split_positions_witness :
  exists w' next sub,
    getSplitCommunicators 2 (mkWorld ([] ++ [MPIComm 0 [0; 1; 2; 3; 4] 4]) 1 [])
    = (w', Ok (next, sub))
    /\ Get_rank next = 0
    /\ Get_size next = 1
    /\ Get_rank sub = 2
    /\ Get_size sub = 3.
Proof.
  exact (@split_positions [] 0 [0; 1; 2; 3; 4] 4 1 [] 2
           ltac:(simpl; lia) ltac:(simpl; lia)).
Defined.

(** ** The work distributor, continued *)

Lemma stripe_length (g s n : nat) : length (stripe g s n) = stripe_len g s n.
Proof. unfold stripe. now rewrite length_map, length_seq. Qed.

Lemma items_at_length {Item : Type} (values : list Item) (idxs : list nat) :
  Forall (fun j => j < length values) idxs ->
  length (items_at values idxs) = length idxs.
Proof.
  intro Hall. apply items_at_lookup in Hall.
  apply (f_equal (@length _)) in Hall. now rewrite !length_map in Hall.
Qed.

(** [list(it)] run, the calls of [Barrier()] returning: the state
    afterwards differs by one barrier on [leftover] for every item and one
    more for the call that found the iterator exhausted. *)
Lemma drain_run {Item : Type} (fuel : nat) :
  forall (it : ParallelIter.t Item) (w : World),
    0 < Get_size (ParallelIter.cpus it) ->
    length (ParallelIter.values it) - ParallelIter.i it < fuel ->
    let idxs := stripe (ParallelIter.i it) (Get_size (ParallelIter.cpus it))
                  (length (ParallelIter.values it)) in
    drain fuel it w
    = Some (mkWorld (ParallelisationStack w) (next_oid w)
              (trace w ++ repeat (EvBarrier (oid_of (ParallelIter.leftover it)))
                                 (S (length idxs))),
            Ok (items_at (ParallelIter.values it) idxs)).
Proof.
  induction fuel as [|fuel IH]; intros it w Hs Hfuel; [lia|].
  cbn zeta. cbn [drain]. rewrite next_unfold.
  destruct (Nat.leb_spec (length (ParallelIter.values it)) (ParallelIter.i it)) as [Hle|Hlt].
  { rewrite stripe_nil by exact Hle. reflexivity. }
  destruct (nth_error (ParallelIter.values it) (ParallelIter.i it)) as [x|] eqn:E;
    [|apply nth_error_None in E; lia].
  set (w1 := mkWorld _ _ _). set (it1 := ParallelIter.mk _ _ _ _).
  rewrite (IH it1 w1); [|exact Hs|unfold it1; simpl; lia].
  unfold it1, w1. cbn [ParallelIter.values ParallelIter.i ParallelIter.cpus
                       ParallelIter.leftover ParallelisationStack next_oid trace].
  rewrite (stripe_cons Hs Hlt). unfold items_at at 2. cbn [flat_map length]. rewrite E.
  rewrite <- app_assoc. reflexivity.
Qed.

(** [list(localShareOf(tasks))] run, given what the splitter returned, the
    calls of [Barrier()] returning. *)
Lemma list_localShareOf_run {Item : Type} (tasks : list Item)
  (st : list Communicator) (n n' : nat) (tr pre : list Event)
  (cpus leftover : Communicator) :
  getSplitCommunicators (Z.of_nat (length tasks)) (mkWorld st n tr)
  = (mkWorld st n' (tr ++ pre), Ok (cpus, leftover)) ->
  0 < Get_size cpus ->
  let idxs := stripe (Get_rank cpus) (Get_size cpus) (length tasks) in
  list_localShareOf tasks (mkWorld st n tr)
  = Some (mkWorld st n'
            (tr ++ pre ++ EvPush (oid_of leftover)
                :: repeat (EvBarrier (oid_of leftover)) (S (length idxs))
                ++ [EvBarrier (oid_of cpus); EvPop (oid_of leftover)]),
          Ok (items_at tasks idxs)).
Proof.
  intros Eg Hs idxs.
  unfold list_localShareOf, localShareOf.__init__, bind. rewrite Eg.
  cbn [ret localShareOf.__iter__ localShareOf.values localShareOf.cpus
       localShareOf.leftover fst snd ParallelIter.__init__ bind push].
  cbn [ParallelisationStack next_oid trace].
  rewrite drain_run; [|exact Hs|simpl; lia].
  cbn [ParallelIter.values ParallelIter.i ParallelIter.cpus ParallelIter.leftover
       ParallelisationStack next_oid trace]. fold idxs.
  unfold ParallelIter.__del__, bind at 1, Barrier, log.
  cbn [ParallelisationStack next_oid trace ParallelIter.cpus ParallelIter.leftover].
  unfold bind. rewrite pop_top, is_refl. cbn [fst].
  do 2 f_equal. rewrite <- !app_assoc. reflexivity.
Qed.

Lemma stripe_unit (n : nat) : stripe 0 1 n = seq 0 n.
Proof.
  unfold stripe, stripe_len. destruct (Nat.leb_spec n 0) as [H|H].
  - replace n with 0 by lia. reflexivity.
  - rewrite Nat.div_1_r. replace (S (n - 0 - 1)) with n by lia.
    rewrite <- (map_id (seq 0 n)) at 2. apply map_ext. intro k. lia.
Qed.

Lemma stripe_single (g n : nat) : g < n -> stripe g n n = [g].
Proof.
  intro Hg. rewrite stripe_cons by lia. now rewrite stripe_nil by lia.
Qed.

(** X11. In a single process the share is the whole list: when the
    communicator on top of the stack, which the caller belongs to, has one
    process (a [_FakeCommunicator] has), or when there is one task only,
    [list(localShareOf(tasks))] returns [tasks], every item once and in
    order, and the stack afterwards is the stack before. *)
Theorem single_process_share_is_everything {Item : Type} (tasks : list Item)
  (rest : list Communicator) (comm : Communicator) (n : nat) (tr : list Event) :
  tasks <> [] ->
  wf_comm comm ->
  Get_size comm = 1 \/ length tasks = 1 ->
  let w := mkWorld (rest ++ [comm]) n tr in
  exists w',
    list_localShareOf tasks w = Some (w', Ok tasks)
    /\ ParallelisationStack w' = ParallelisationStack w.
Proof.
  intros Htasks Hwf Hone w. unfold wf_comm in Hwf.
  assert (Hj : (0 < Z.of_nat (length tasks))%Z)
    by (destruct tasks; [contradiction | simpl; lia]).
  pose proof (getSplitCommunicators_top rest comm n tr (Z.of_nat (length tasks))) as E.
  cbv zeta in E.
  destruct (Z.ltb_spec 0 (Z.of_nat (length tasks))); [|lia].
  destruct (Z.eqb_spec (Z.min (Z.of_nat (length tasks)) (Z.of_nat (Get_size comm))) 1);
    [|lia].
  rewrite <- (app_nil_r tr) in E at 2.
  assert (Hs : 0 < Get_size (FakeCommunicator n)) by (simpl; lia).
  pose proof (@list_localShareOf_run _ tasks _ _ _ _ _ _ _ E Hs) as El. cbv zeta in El.
  cbn [Get_rank Get_size] in El. rewrite stripe_unit, items_at_all in El.
  eexists. split; [exact El | reflexivity].
Qed.

Lemma single_process_share_is_everything_witness :
  exists w',
    list_localShareOf [10; 20; 30] (mkWorld ([] ++ [FakeCommunicator 0]) 1 [])
    = Some (w', Ok [10; 20; 30])
    /\ ParallelisationStack w' = [] ++ [FakeCommunicator 0].
Proof.
  apply (@single_process_share_is_everything nat [10; 20; 30] []
           (FakeCommunicator 0) 1 []).
  - discriminate.
  - unfold wf_comm. simpl. lia.
  - left. reflexivity.
Defined.

Section AmbientFacts.
Variable Item : Type.
Variable body : Item -> World -> World * Completion.
Hypothesis body_keeps_stack :
  forall x w, ParallelisationStack (fst (body x w)) = ParallelisationStack w.

Lemma with_ambient_check_top (l : Communicator) (rest : list Communicator)
  (n : nat) (tr : list Event) (x : Item) :
  with_ambient_check l body x (mkWorld (rest ++ [l]) n tr)
  = body x (mkWorld (rest ++ [l]) n tr).
Proof.
  unfold with_ambient_check, bind. rewrite getCommunicator_top, is_refl. reflexivity.
Qed.

Lemma iterate_ambient (l : Communicator) (rest : list Communicator) (fuel : nat) :
  forall (it : ParallelIter.t Item) (n : nat) (tr : list Event),
    iterate (with_ambient_check l body) fuel it (mkWorld (rest ++ [l]) n tr)
    = iterate body fuel it (mkWorld (rest ++ [l]) n tr).
Proof.
  induction fuel as [|fuel IH]; intros it n tr; [reflexivity|].
  cbn [iterate]. rewrite next_unfold. cbn [ParallelisationStack next_oid trace].
  destruct (length (ParallelIter.values it) <=? ParallelIter.i it); [reflexivity|].
  destruct (nth_error (ParallelIter.values it) (ParallelIter.i it)) as [x|];
    [|reflexivity].
  rewrite with_ambient_check_top.
  set (w1 := mkWorld _ _ _).
  pose proof (body_keeps_stack x w1) as Hst.
  destruct (body x w1) as [[st2 n2 tr2] c]. simpl in Hst. subst st2.
  destruct c; [apply IH | reflexivity | reflexivity].
Qed.

End AmbientFacts.

(** X12. While the loop runs, the ambient communicator is [leftover], the
    second communicator of the splitter's pair: right after [__iter__],
    [getCommunicator()] returns it, and for a body that leaves the stack as
    it finds it, a body that first asserts
    [getCommunicator() is leftover] never fails that assertion: the loop
    with the assertion does what the loop without it does. *)
Theorem ambient_communicator_is_leftover {Item : Type}
  (body : Item -> World -> World * Completion) (tasks : list Item)
  (w w1 : World) (cpus leftover : Communicator) :
  (forall x w0, ParallelisationStack (fst (body x w0)) = ParallelisationStack w0) ->
  getSplitCommunicators (Z.of_nat (length tasks)) w = (w1, Ok (cpus, leftover)) ->
  (exists w2,
      (self <- localShareOf.__init__ tasks ;;
       localShareOf.__iter__ self ;;;
       getCommunicator) w = (w2, Ok leftover))
  /\ for_localShareOf (with_ambient_check leftover body) tasks w
     = for_localShareOf body tasks w.
Proof.
  intros Hbody Eg. destruct w1 as [st1 n1 tr1]. split.
  - unfold localShareOf.__init__, bind. rewrite Eg.
    cbn [ret localShareOf.__iter__ localShareOf.values localShareOf.cpus
         localShareOf.leftover fst snd ParallelIter.__init__ bind push].
    cbn [ParallelisationStack next_oid trace].
    rewrite getCommunicator_top. eexists. reflexivity.
  - unfold for_localShareOf, localShareOf.__init__, bind. rewrite Eg.
    cbn [ret localShareOf.__iter__ localShareOf.values localShareOf.cpus
         localShareOf.leftover fst snd ParallelIter.__init__ bind push].
    cbn [ParallelisationStack next_oid trace].
    now rewrite (@iterate_ambient Item body Hbody).
Qed.

Lemma ambient_communicator_is_leftover_witness :
  (exists w2,
      (self <- localShareOf.__init__ [10; 20; 30] ;;
       localShareOf.__iter__ self ;;;
       getCommunicator) (mkWorld [MPIComm 0 [0; 1] 1] 1 [])
      = (w2, Ok (FakeCommunicator 1)))
  /\ for_localShareOf
       (with_ambient_check (FakeCommunicator 1)
          (fun (x : nat) w => (w, if x =? 20 then Broke else Completed)))
       [10; 20; 30] (mkWorld [MPIComm 0 [0; 1] 1] 1 [])
     = for_localShareOf (fun (x : nat) w => (w, if x =? 20 then Broke else Completed))
         [10; 20; 30] (mkWorld [MPIComm 0 [0; 1] 1] 1 []).
Proof.
  apply (@ambient_communicator_is_leftover nat
           (fun (x : nat) w => (w, if x =? 20 then Broke else Completed))
           [10; 20; 30] (mkWorld [MPIComm 0 [0; 1] 1] 1 [])
           (mkWorld [MPIComm 0 [0; 1] 1] 2 []) (MPIComm 0 [0; 1] 1) (FakeCommunicator 1)).
  - intros x w0. reflexivity.
  - reflexivity.
Defined.


(** * The processes together *)

(** ** Uneven groups *)

(** C2. The claim has every rank be given the items at [g, g+s, g+2s, ...]
    below [N].  With 3 tasks on 4 processes the process of rank 3 is alone
    in its [cpus] (rank 0, size 1), so its stripe is all three items, and
    its [leftover] is the group of ranks 0 and 3; the process of rank 0 is
    given one item and calls [Barrier()] on that group twice, the process
    of rank 3 needs four calls.  So the ranks 0, 1 and 2 are through, and
    the process of rank 3 is given the items 0 and 1 and then waits for
    ever in its third [Barrier()] on [leftover]: it is never given item 2.
    With 2 tasks on 5 processes the process of rank 4 is given both items
    and then waits for ever in [next()], which never tells it that the
    items are exhausted. *)
Theorem uneven_split_blocks :
  getSplitCommunicators 3 (mkWorld [MPIComm 0 [0; 1; 2; 3] 3] 1 [])
  = (mkWorld [MPIComm 0 [0; 1; 2; 3] 3] 3 [EvSplit 0 1 3; EvSplit 0 0 3],
     Ok (MPIComm 1 [3] 0, MPIComm 2 [0; 3] 1))
  /\ items_at [10; 20; 30] (stripe 0 1 3) = [10; 20; 30]
  /\ map (given 4 [10; 20; 30]) (seq 0 4) = [[10]; [20]; [30]; [10; 20]]
  /\ map (blocked_in 4 [10; 20; 30]) (seq 0 4)
     = [None; None; None; Some (mkCall CBarrier 2 [0; 3])]
  /\ step (outcome 4 [10; 20; 30]) = None
  /\ map (given 5 [10; 20]) (seq 0 5) = [[10]; [20]; [10]; [20]; [10; 20]]
  /\ map (blocked_in 5 [10; 20]) (seq 0 5)
     = [None; None; None; None; Some (mkCall CBarrier 2 [0; 2; 4])]
  /\ step (outcome 5 [10; 20]) = None.
Proof.
  repeat split; vm_compute; reflexivity.
Qed.

(** ** Matched groups *)

Lemma matchedb_spec (size n : nat) : matchedb size n = true <-> matched size n.
Proof.
  unfold matchedb, matched. rewrite orb_true_iff, Nat.leb_le, Nat.eqb_eq. reflexivity.
Qed.

(** For up to 6 processes and up to 6 tasks, all processes come through
    [list(localShareOf(tasks))] exactly when the two numbers are
    matched. *)
Lemma through_iff_matched_up_to_6 :
  forallb (fun size =>
    forallb (fun n => Bool.eqb (all_through size (seq 0 n)) (matchedb size n))
            (seq 1 6))
    (seq 1 6) = true.
Proof. vm_compute. reflexivity. Qed.

Lemma matched_full_block (size n r : nat) :
  0 < n -> r < size -> size mod n = 0 -> Nat.min n (size - r / n * n) = n.
Proof.
  intros Hn Hr Hm.
  pose proof (Nat.div_mod_eq size n) as Hs. rewrite Hm in Hs.
  pose proof (proj1 (div_eq_iff (r / n) r Hn) eq_refl) as Hq.
  assert (r / n < size / n) by nia. nia.
Qed.

(** With at least as many jobs as processes there is no [Split], and
    [leftover] is one process. *)
Lemma getSplitCommunicators_enough_jobs (rest : list Communicator)
  (comm : Communicator) (n : nat) (tr : list Event) (jobs : Z) :
  wf_comm comm -> (Z.of_nat (Get_size comm) <= jobs)%Z ->
  exists cpus leftover,
    getSplitCommunicators jobs (mkWorld (rest ++ [comm]) n tr)
    = (mkWorld (rest ++ [comm]) (S n) tr, Ok (cpus, leftover))
    /\ wf_comm cpus
    /\ Get_size leftover = 1.
Proof.
  intros Hwf Hj. unfold wf_comm in Hwf.
  pose proof (getSplitCommunicators_top rest comm n tr jobs) as E. cbv zeta in E.
  rewrite E. clear E.
  destruct (Z.ltb_spec 0 jobs); [|lia].
  destruct (Z.eqb_spec (Z.min jobs (Z.of_nat (Get_size comm))) 1) as [E1|E1].
  { exists (FakeCommunicator n), comm. split; [reflexivity|].
    split; [unfold wf_comm; simpl; lia | lia]. }
  destruct (Z.eqb_spec (Z.min jobs (Z.of_nat (Get_size comm))) (Z.of_nat (Get_size comm)));
    [|lia].
  exists comm, (FakeCommunicator n). split; [reflexivity|].
  split; [exact Hwf | reflexivity].
Qed.

(** With matched numbers of processes and tasks: [leftover] is one
    process, or [cpus] has as many processes as there are tasks. *)
Lemma getSplitCommunicators_matched (rest : list Communicator)
  (comm : Communicator) (n : nat) (tr : list Event) (N : nat) :
  wf_comm comm -> 0 < N -> matched (Get_size comm) N ->
  exists n' pre cpus leftover,
    getSplitCommunicators (Z.of_nat N) (mkWorld (rest ++ [comm]) n tr)
    = (mkWorld (rest ++ [comm]) n' (tr ++ pre), Ok (cpus, leftover))
    /\ forallb is_split pre = true
    /\ Get_rank cpus < Get_size cpus <= N
    /\ (Get_size leftover = 1 \/ Get_size cpus = N).
Proof.
  intros Hwf HN Hm.
  destruct (Nat.le_gt_cases (Get_size comm) N) as [Hle|Hgt].
  { destruct (@getSplitCommunicators_enough_jobs rest comm n tr (Z.of_nat N) Hwf
                ltac:(lia)) as (cpus & leftover & E & Hc & Hl).
    exists (S n), [], cpus, leftover. rewrite app_nil_r.
    split; [exact E|]. split; [reflexivity|].
    destruct (getSplitCommunicators_run rest n tr Hwf (jobs := Z.of_nat N) ltac:(lia))
      as (n2 & pre2 & cpus2 & leftover2 & E2 & _ & Hc2 & _ & Hcj & _).
    rewrite E in E2. injection E2 as _ _ -> _. unfold wf_comm in Hc2.
    split; [lia | now left]. }
  destruct Hm as [Hm|Hm]; [lia|]. unfold wf_comm in Hwf.
  destruct (Nat.eq_dec N 1) as [->|HN1].
  { pose proof (getSplitCommunicators_top rest comm n tr (Z.of_nat 1)) as E.
    cbv zeta in E. rewrite E. clear E.
    destruct (Z.ltb_spec 0 (Z.of_nat 1)); [|lia].
    destruct (Z.eqb_spec (Z.min (Z.of_nat 1) (Z.of_nat (Get_size comm))) 1); [|lia].
    exists (S n), [], (FakeCommunicator n), comm. rewrite app_nil_r.
    split; [reflexivity|]. split; [reflexivity|]. simpl. split; [lia | now right]. }
  destruct comm as [o|o g r]; [simpl in Hgt; lia|]. simpl in Hwf, Hgt, Hm.
  assert (Hgc : (1 < Z.min (Z.of_nat N) (Z.of_nat (length g)) < Z.of_nat (length g))%Z)
    by lia.
  pose proof (@getSplitCommunicators_middle rest o g r n tr (Z.of_nat N) Hgc) as E.
  cbv zeta in E.
  replace (Z.min (Z.of_nat N) (Z.of_nat (length g))) with (Z.of_nat N) in E by lia.
  do 4 eexists. split; [exact E|]. split; [reflexivity|].
  cbn [Get_rank Get_size]. rewrite !length_map.
  rewrite outer_group_index, outer_group_length by assumption.
  rewrite (matched_full_block HN Hwf Hm).
  pose proof (Nat.mod_upper_bound r N ltac:(lia)).
  split; [lia | now right].
Qed.




(** X9. Nobody is left without work: for a list of at least one task and,
    on top of the stack, a communicator the caller belongs to, the numbers
    of its processes and of the tasks being matched,
    [list(localShareOf(tasks))] ends and returns a list that is not empty;
    its first element is the task at the caller's rank in [cpus], it has
    as many elements as there are indices [g, g+s, ...] below the number of
    tasks, and never more than there are tasks; and [leftover] is one
    process, or the first element is the only one. *)
Theorem share_is_not_empty {Item : Type} (tasks : list Item)
  (rest : list Communicator) (comm : Communicator) (n : nat) (tr : list Event) :
  tasks <> [] ->
  wf_comm comm ->
  matched (Get_size comm) (length tasks) ->
  let w := mkWorld (rest ++ [comm]) n tr in
  exists w1 cpus leftover w' x more,
    getSplitCommunicators (Z.of_nat (length tasks)) w = (w1, Ok (cpus, leftover))
    /\ list_localShareOf tasks w = Some (w', Ok (x :: more))
    /\ nth_error tasks (Get_rank cpus) = Some x
    /\ Get_rank cpus < Get_size cpus <= length tasks
    /\ S (length more) = stripe_len (Get_rank cpus) (Get_size cpus) (length tasks)
    /\ S (length more) <= length tasks
    /\ (Get_size leftover = 1 \/ more = []).
Proof.
  intros Htasks Hwf Hm w.
  assert (HN : 0 < length tasks) by (destruct tasks; [contradiction | simpl; lia]).
  destruct (getSplitCommunicators_matched rest n tr Hwf HN Hm)
    as (n' & pre & cpus & leftover & E & _ & Hc & Hone).
  assert (Hs : 0 < Get_size cpus) by lia.
  pose proof (@list_localShareOf_run _ tasks _ _ _ _ _ _ _ E Hs) as El. cbv zeta in El.
  assert (Hg : Get_rank cpus < length tasks) by lia.
  destruct (nth_error tasks (Get_rank cpus)) as [x|] eqn:Ex;
    [|apply nth_error_None in Ex; lia].
  pose proof (stripe_below (Get_rank cpus) (length tasks) Hs) as Hbelow.
  pose proof (items_at_length tasks Hbelow) as Hlen.
  pose proof (stripe_NoDup (Get_rank cpus) (length tasks) Hs) as Hnd.
  assert (Hmax : length (stripe (Get_rank cpus) (Get_size cpus) (length tasks))
                 <= length tasks).
  { assert (Hincl : incl (stripe (Get_rank cpus) (Get_size cpus) (length tasks))
                         (seq 0 (length tasks))).
    { intros j Hin. rewrite Forall_forall in Hbelow. apply in_seq.
      specialize (Hbelow j Hin). lia. }
    pose proof (NoDup_incl_length Hnd Hincl) as Hle.
    now rewrite length_seq in Hle. }
  assert (Hitems : items_at tasks (stripe (Get_rank cpus) (Get_size cpus) (length tasks))
                   = x :: items_at tasks (stripe (Get_rank cpus + Get_size cpus)
                                            (Get_size cpus) (length tasks))).
  { rewrite (stripe_cons Hs Hg). unfold items_at. cbn [flat_map]. now rewrite Ex. }
  rewrite Hitems in El, Hlen. cbn [length] in Hlen.
  rewrite stripe_length in Hlen, Hmax.
  do 6 eexists. split; [exact E|]. split; [exact El|].
  split; [exact Ex|]. split; [exact Hc|]. split; [exact Hlen|]. split; [lia|].
  destruct Hone as [Hone|Hone]; [now left|right].
  rewrite Hone in Hlen |- *.
  rewrite <- stripe_length, (stripe_single Hg) in Hlen. simpl in Hlen.
  apply length_zero_iff_nil. lia.
Qed.

Lemma share_is_not_empty_witness :
  exists w1 cpus leftover w' x more,
    getSplitCommunicators (Z.of_nat (length [10; 20; 30]))
      (mkWorld ([] ++ [MPIComm 0 [0; 1] 1]) 1 []) = (w1, Ok (cpus, leftover))
    /\ list_localShareOf [10; 20; 30] (mkWorld ([] ++ [MPIComm 0 [0; 1] 1]) 1 [])
       = Some (w', Ok (x :: more))
    /\ nth_error [10; 20; 30] (Get_rank cpus) = Some x
    /\ Get_rank cpus < Get_size cpus <= 3
    /\ S (length more) = stripe_len (Get_rank cpus) (Get_size cpus) 3
    /\ S (length more) <= 3
    /\ (Get_size leftover = 1 \/ more = []).
Proof.
  apply (@share_is_not_empty nat [10; 20; 30] [] (MPIComm 0 [0; 1] 1) 1 []).
  - discriminate.
  - unfold wf_comm. simpl. lia.
  - left. simpl. lia.
Defined.

(** X10. What [list(localShareOf(tasks))] does to the process, for at least
    one task and a communicator on the stack the caller belongs to, the
    numbers of its processes and of the tasks being matched: the stack
    afterwards is the stack before; after the [Split] calls of the
    splitter the calls are one push of [leftover], one [Barrier()] on
    [leftover] for every item returned and one more for the call of
    [next()] that ends the iteration, the closing [Barrier()] on [cpus],
    and one pop of [leftover]; and [leftover] is one process, or one item
    is returned, which makes two calls of [Barrier()] on [leftover] in
    every process of it. *)
Theorem share_calls {Item : Type} (tasks : list Item)
  (rest : list Communicator) (comm : Communicator) (n : nat) (tr : list Event) :
  tasks <> [] ->
  wf_comm comm ->
  matched (Get_size comm) (length tasks) ->
  let w := mkWorld (rest ++ [comm]) n tr in
  exists w1 cpus leftover w' ys pre,
    getSplitCommunicators (Z.of_nat (length tasks)) w = (w1, Ok (cpus, leftover))
    /\ list_localShareOf tasks w = Some (w', Ok ys)
    /\ ParallelisationStack w' = ParallelisationStack w
    /\ forallb is_split pre = true
    /\ trace w' = tr ++ pre ++ EvPush (oid_of leftover)
                    :: repeat (EvBarrier (oid_of leftover)) (S (length ys))
                    ++ [EvBarrier (oid_of cpus); EvPop (oid_of leftover)]
    /\ (Get_size leftover = 1 \/ length ys = 1).
Proof.
  intros Htasks Hwf Hm w.
  assert (HN : 0 < length tasks) by (destruct tasks; [contradiction | simpl; lia]).
  destruct (getSplitCommunicators_matched rest n tr Hwf HN Hm)
    as (n' & pre & cpus & leftover & E & Hpre & Hc & Hone).
  assert (Hs : 0 < Get_size cpus) by lia.
  pose proof (@list_localShareOf_run _ tasks _ _ _ _ _ _ _ E Hs) as El. cbv zeta in El.
  pose proof (items_at_length tasks (stripe_below (Get_rank cpus) (length tasks) Hs)) as Hlen.
  rewrite <- Hlen in El.
  do 6 eexists. split; [exact E|]. split; [exact El|].
  split; [reflexivity|]. split; [exact Hpre|]. split; [reflexivity|].
  destruct Hone as [Hone|Hone]; [now left|right].
  rewrite Hlen, Hone, stripe_single by lia. reflexivity.
Qed.

Lemma share_calls_witness :
  exists w1 cpus leftover w' ys pre,
    getSplitCommunicators (Z.of_nat (length [10; 20]))
      (mkWorld ([] ++ [MPIComm 0 [0; 1; 2; 3] 3]) 1 []) = (w1, Ok (cpus, leftover))
    /\ list_localShareOf [10; 20] (mkWorld ([] ++ [MPIComm 0 [0; 1; 2; 3] 3]) 1 [])
       = Some (w', Ok ys)
    /\ ParallelisationStack w' = [] ++ [MPIComm 0 [0; 1; 2; 3] 3]
    /\ forallb is_split pre = true
    /\ trace w' = [] ++ pre ++ EvPush (oid_of leftover)
                    :: repeat (EvBarrier (oid_of leftover)) (S (length ys))
                    ++ [EvBarrier (oid_of cpus); EvPop (oid_of leftover)]
    /\ (Get_size leftover = 1 \/ length ys = 1).
Proof.
  apply (@share_calls nat [10; 20] [] (MPIComm 0 [0; 1; 2; 3] 3) 1 []).
  - discriminate.
  - unfold wf_comm. simpl. lia.
  - right. reflexivity.
Defined.

(** X13. More processes than tasks: with [N] tasks, [1 < N < size], [N]
    dividing [size], on a communicator of [size] processes the share of
    the caller of rank [r] is the one task at index [r % N], and the stack
    afterwards is the stack before. *)
Theorem more_processes_than_tasks {Item : Type} (tasks : list Item)
  (rest : list Communicator) (o : nat) (g : list nat) (r n : nat) (tr : list Event) :
  r < length g ->
  1 < length tasks < length g ->
  length g mod length tasks = 0 ->
  let N := length tasks in
  let w := mkWorld (rest ++ [MPIComm o g r]) n tr in
  exists w' x,
    nth_error tasks (r mod N) = Some x
    /\ list_localShareOf tasks w = Some (w', Ok [x])
    /\ ParallelisationStack w' = ParallelisationStack w.
Proof.
  intros Hr HN Hm N w. set (size := length g).
  assert (Hgc : (1 < Z.min (Z.of_nat N) (Z.of_nat size) < Z.of_nat size)%Z)
    by (unfold N, size; lia).
  pose proof (@getSplitCommunicators_middle rest o g r n tr (Z.of_nat N) Hgc) as E.
  cbv zeta in E. fold size in E.
  replace (Z.min (Z.of_nat N) (Z.of_nat size)) with (Z.of_nat N) in E by lia.
  assert (HN0 : 0 < N) by (unfold N; lia).
  assert (Hfull : Nat.min N (size - r / N * N) = N)
    by (apply matched_full_block; assumption).
  assert (Hs : 0 < Get_size (MPIComm n (map (fun j => nth j g 0)
                                         (outer_group size (Z.of_nat N) r))
                                     (index_of r (outer_group size (Z.of_nat N) r)))).
  { cbn [Get_size]. rewrite length_map, outer_group_length by assumption. lia. }
  pose proof (@list_localShareOf_run _ tasks _ _ _ _ _ _ _ E Hs) as El.
  cbv zeta in El. cbn [Get_rank Get_size] in El.
  rewrite length_map, outer_group_index, outer_group_length in El by assumption.
  fold N in El. fold w in El. rewrite Hfull in El.
  pose proof (Nat.mod_upper_bound r N ltac:(lia)) as Hrm.
  rewrite (stripe_single Hrm) in El.
  destruct (nth_error tasks (r mod N)) as [x|] eqn:Ex;
    [|apply nth_error_None in Ex; fold N in Ex; lia].
  unfold items_at in El. cbn [flat_map] in El. rewrite Ex in El. cbn [app] in El.
  do 2 eexists. split; [reflexivity|]. split; [exact El | reflexivity].
Qed.

Lemma more_processes_than_tasks_witness :
  exists w' x,
    nth_error [10; 20] (3 mod 2) = Some x
    /\ list_localShareOf [10; 20] (mkWorld ([] ++ [MPIComm 0 [0; 1; 2; 3] 3]) 1 [])
       = Some (w', Ok [x])
    /\ ParallelisationStack w' = [] ++ [MPIComm 0 [0; 1; 2; 3] 3].
Proof.
  apply (@more_processes_than_tasks nat [10; 20] [] 0 [0; 1; 2; 3] 3 1 []).
  - simpl. lia.
  - simpl. lia.
  - reflexivity.
Defined.

(** X14. Striping, the numbers of processes and of tasks being matched:
    for a list of [N >= 1] items and the pair of communicators that
    [localShareOf] gets from [getSplitCommunicators(N)], with [g] and [s]
    the rank and size of [cpus], [g < s]; iterating to exhaustion ends and
    yields the items at the indices [g, g+s, g+2s, ...] below [N], in
    increasing order of index; every index below [N] is in the stripe of
    exactly one position [g' < s], and the stripes of the positions
    [0 .. s-1] together give the [N] items, each once; and [leftover] is
    one process, or one item is yielded. *)
Theorem share_is_stripe {Item : Type} (tasks : list Item)
  (rest : list Communicator) (comm : Communicator) (n : nat) (tr : list Event) :
  tasks <> [] ->
  wf_comm comm ->
  matched (Get_size comm) (length tasks) ->
  let w := mkWorld (rest ++ [comm]) n tr in
  let N := length tasks in
  exists w1 cpus leftover w2 it w3 ys,
    localShareOf.__init__ tasks w = (w1, Ok (localShareOf.mk tasks cpus leftover))
    /\ localShareOf.__iter__ (localShareOf.mk tasks cpus leftover) w1 = (w2, Ok it)
    /\ drain (S N) it w2 = Some (w3, Ok ys)
    /\ Get_rank cpus < Get_size cpus
    /\ map Some ys = map (nth_error tasks) (stripe (Get_rank cpus) (Get_size cpus) N)
    /\ Forall (fun j => j < N) (stripe (Get_rank cpus) (Get_size cpus) N)
    /\ Sorted lt (stripe (Get_rank cpus) (Get_size cpus) N)
    /\ (forall j, j < N ->
        exists g', g' < Get_size cpus /\ In j (stripe g' (Get_size cpus) N)
          /\ forall g'', g'' < Get_size cpus -> In j (stripe g'' (Get_size cpus) N)
                         -> g'' = g')
    /\ Permutation
         (flat_map (fun g' => items_at tasks (stripe g' (Get_size cpus) N))
                   (seq 0 (Get_size cpus)))
         tasks
    /\ (Get_size leftover = 1 \/ length ys = 1).
Proof.
  intros Htasks Hwf Hm w N.
  assert (HN : 0 < length tasks) by (destruct tasks; [contradiction | simpl; lia]).
  destruct (getSplitCommunicators_matched rest n tr Hwf HN Hm)
    as (n' & pre & cpus & leftover & Eg & _ & Hcpus' & Hone).
  assert (Hcpus : Get_rank cpus < Get_size cpus) by lia.
  assert (Hs : 0 < Get_size cpus) by lia.
  set (it := ParallelIter.mk tasks leftover cpus (Get_rank cpus)).
  set (w1 := mkWorld (rest ++ [comm]) n' (tr ++ pre)).
  set (w2 := mkWorld ((rest ++ [comm]) ++ [leftover]) n'
               ((tr ++ pre) ++ [EvPush (oid_of leftover)])).
  destruct (@drain_stripe Item (S N) it w2) as (w3 & Ed & _).
  { exact Hs. }
  { unfold it, N. simpl. lia. }
  exists w1, cpus, leftover, w2, it, w3. eexists.
  split; [unfold localShareOf.__init__, bind, w; now rewrite Eg|].
  split; [reflexivity|].
  split; [exact Ed|].
  split; [exact Hcpus|].
  cbn [ParallelIter.values ParallelIter.i ParallelIter.cpus it].
  fold N.
  split; [apply items_at_lookup, stripe_below, Hs|].
  split; [apply stripe_below, Hs|].
  split; [apply stripe_increasing, Hs|].
  split.
  { intros j Hjn. exists (j mod Get_size cpus).
    pose proof (Nat.mod_upper_bound j (Get_size cpus) ltac:(lia)) as Hjm.
    split; [exact Hjm|]. split; [apply in_stripe_mod; lia|].
    intros g'' Hg'' Hin. apply in_stripe_mod in Hin; lia. }
  split; [apply shares_cover, Hs|].
  destruct Hone as [Hone|Hone]; [now left|right].
  unfold N. rewrite (items_at_length tasks (stripe_below (Get_rank cpus) (length tasks) Hs)).
  rewrite Hone, stripe_single by lia. reflexivity.
Qed.

Lemma share_is_stripe_witness :
  let tasks := [10; 20; 30; 40; 50] in
  let w := mkWorld ([] ++ [MPIComm 0 [0; 1] 1]) 1 [] in
  exists w1 cpus leftover w2 it w3 ys,
    localShareOf.__init__ tasks w = (w1, Ok (localShareOf.mk tasks cpus leftover))
    /\ localShareOf.__iter__ (localShareOf.mk tasks cpus leftover) w1 = (w2, Ok it)
    /\ drain 6 it w2 = Some (w3, Ok ys)
    /\ Get_rank cpus < Get_size cpus
    /\ map Some ys = map (nth_error tasks) (stripe (Get_rank cpus) (Get_size cpus) 5)
    /\ Forall (fun j => j < 5) (stripe (Get_rank cpus) (Get_size cpus) 5)
    /\ Sorted lt (stripe (Get_rank cpus) (Get_size cpus) 5)
    /\ (forall j, j < 5 ->
        exists g', g' < Get_size cpus /\ In j (stripe g' (Get_size cpus) 5)
          /\ forall g'', g'' < Get_size cpus -> In j (stripe g'' (Get_size cpus) 5)
                         -> g'' = g')
    /\ Permutation
         (flat_map (fun g' => items_at tasks (stripe g' (Get_size cpus) 5))
                   (seq 0 (Get_size cpus)))
         tasks
    /\ (Get_size leftover = 1 \/ length ys = 1).
Proof.
  cbv zeta.
  apply (share_is_stripe (tasks := [10; 20; 30; 40; 50]) []
           (comm := MPIComm 0 [0; 1] 1) 1 []).
  - discriminate.
  - unfold wf_comm. simpl. lia.
  - left. simpl. lia.
Defined.
